(** * FRETBursts: alternation-period classifier and burst-selection predicates

    A shallow embedding of [loaders.py] (the usALEX part) and of
    [select_bursts.py], with the properties of the two modules stated and
    proved over the embedding.

    Conventions.
    - A numpy integer array is a [list Z]; a numpy boolean array is a
      [list bool]; on boolean arrays numpy's [+] is the logical or and [*]
      the logical and.
    - A numpy float array is a list over a type with the float operations
      the code uses (class [Float]); the rationals are the instance on
      which the predicates are run.
    - A Python exception is a value [Raise e] of the [result] type; the
      assertions of [usalex_apply_period] carry a tag that says which
      [assert] statement failed.
    - The [Data] object is a bag of attributes; each module has a record
      of the attributes it reads and writes.
    - The predicates return their mask; of the label some of them return
      with it, the exceptions that writing it raises are kept.
    - Probabilities are real numbers; the Poisson law is the one of the
      textbook, and the inverse survival function is read as scipy
      documents it. *)

From Stdlib Require Import ZArith QArith Qround Qabs Bool Lia.
From Stdlib Require Import Rbase Rfunctions Rtrigo_def Exp_prop Rpower.
From Stdlib Require Import Lra ClassicalEpsilon Qreals.
From stdpp Require Import base list.

Local Open Scope Z_scope.

(** ** Exceptions *)

Inductive assertion : Set :=
  | EmissionExhaustive   (* loaders.py, line 108 *)
  | EmissionExclusive    (* loaders.py, line 109 *)
  | ExcitationExclusive  (* loaders.py, line 118 *)
  | EmissionCount        (* loaders.py, line 129 *)
  | EmissionExclusiveOut (* loaders.py, line 130 *)
  | OutputSizes          (* loaders.py, line 131 *)
  | StoredSizes          (* loaders.py, line 136 *)
  | BTSize.              (* select_bursts.py, line 269 *)

Inductive error : Set :=
  | AssertionError (a : assertion)
  | AttributeError
  | IndexError
  | OverflowError
  | TypeError
  | ValueError
  | ZeroDivisionError.

Inductive result (A : Type) : Type :=
  | Ok (a : A)
  | Raise (e : error).
Arguments Ok {A} a.
Arguments Raise {A} e.

Global Instance result_ret : MRet result := fun A a => Ok a.
Global Instance result_bind : MBind result := fun A B k m =>
  match m with
  | Ok a => k a
  | Raise e => Raise e
  end.

(** [assert c] of Python, tagged with the statement it stands for. *)
Definition assert_ (a : assertion) (c : bool) : result unit :=
  if c then Ok tt else Raise (AssertionError a).

(** Reading an attribute that [Data.delete] may have removed. *)
Definition attr {A} (o : option A) : result A :=
  match o with
  | Some a => Ok a
  | None => Raise AttributeError
  end.

(** ** numpy array primitives *)

Module Np.

(** Elementwise binary operation with numpy's broadcasting rule for
    one-dimensional operands: equal lengths, or one operand of length 1. *)
Definition broadcast2 {A B C} (f : A -> B -> C)
    (xs : list A) (ys : list B) : result (list C) :=
  if Nat.eqb (length xs) (length ys) then Ok (zip_with f xs ys)
  else match xs, ys with
       | [x], _ => Ok (map (f x) ys)
       | _, [y] => Ok (map (fun x => f x y) xs)
       | _, _ => Raise ValueError
       end.

(** [a + b] and [a * b] on boolean arrays. *)
Definition bor := broadcast2 orb.
Definition band := broadcast2 andb.

(** [a.all()], [a.any()], [a.sum()] and [a.size] on a boolean array. *)
Definition all (m : list bool) : bool := forallb id m.
Definition any (m : list bool) : bool := existsb id m.
Definition sum (m : list bool) : Z :=
  fold_right (fun (b : bool) n => if b then n + 1 else n) 0 m.
Definition size {A} (xs : list A) : Z := Z.of_nat (length xs).

(** [xs[mask]]: boolean-mask indexing. The mask must be as long as the
    array; numpy raises [IndexError] otherwise. *)
Fixpoint select {A} (xs : list A) (mask : list bool) : list A :=
  match xs, mask with
  | x :: xs', b :: mask' => if b then x :: select xs' mask' else select xs' mask'
  | _, _ => []
  end.

Definition mask_index {A} (xs : list A) (mask : list bool) : result (list A) :=
  if Nat.eqb (length xs) (length mask) then Ok (select xs mask)
  else Raise IndexError.

(** [times % period] on integers: the sign of the result follows the
    divisor, as [Z.modulo]; numpy gives 0 for a zero divisor. *)
Definition mod_ (t period : Z) : Z :=
  if period =? 0 then 0 else t mod period.

End Np.

(** ** loaders.py: the usALEX alternation *)

Module Loaders.

(** [_select_outer_range], [_select_inner_range], [_select_range]. *)
Definition _select_outer_range (times : list Z) (period : Z) (edges : Z * Z)
  : list bool :=
  zip_with orb (map (fun t => edges.1 <? Np.mod_ t period) times)
               (map (fun t => Np.mod_ t period <? edges.2) times).

Definition _select_inner_range (times : list Z) (period : Z) (edges : Z * Z)
  : list bool :=
  zip_with andb (map (fun t => edges.1 <? Np.mod_ t period) times)
                (map (fun t => Np.mod_ t period <? edges.2) times).

Definition _select_range (times : list Z) (period : Z) (edges : Z * Z)
  : list bool :=
  if edges.1 <? edges.2 then _select_inner_range times period edges
  else _select_outer_range times period edges.

(** The attributes of the [Data] object that [usalex_apply_period] reads
    and writes. [None] is an attribute that is not set (or was deleted). *)
Record Data : Type := mkData {
  det_donor_accept : Z * Z;
  det_t : option (list Z);
  ph_times_t : option (list Z);
  alex_period : Z;
  D_ON : Z * Z;
  A_ON : Z * Z;
  ph_times_m : option (list (list Z));
  D_em : option (list (list bool));
  A_em : option (list (list bool));
  D_ex : option (list (list bool));
  A_ex : option (list (list bool))
}.

(** Modelled from the spec: the [Data] class is not among the sources;
    its method [add] sets the attributes named by the keywords, here
    [d.add(ph_times_m=[..], D_em=[..], A_em=[..], D_ex=[..], A_ex=[..])]. *)
Definition add (d : Data) (ph_times : list Z) (d_em a_em d_ex a_ex : list bool)
  : Data :=
  {| det_donor_accept := det_donor_accept d;
     det_t := det_t d; ph_times_t := ph_times_t d;
     alex_period := alex_period d; D_ON := D_ON d; A_ON := A_ON d;
     ph_times_m := Some [ph_times];
     D_em := Some [d_em]; A_em := Some [a_em];
     D_ex := Some [d_ex]; A_ex := Some [a_ex] |}.

(** Modelled from the spec: [Data.delete] removes the attribute; the two
    calls [d.delete('ph_times_t')] and [d.delete('det_t')] together. *)
Definition delete_raw (d : Data) : Data :=
  {| det_donor_accept := det_donor_accept d;
     det_t := None; ph_times_t := None;
     alex_period := alex_period d; D_ON := D_ON d; A_ON := A_ON d;
     ph_times_m := ph_times_m d;
     D_em := D_em d; A_em := A_em d; D_ex := D_ex d; A_ex := A_ex d |}.

(** [xs[0]] on a Python list. *)
Definition item0 {A} (xs : list A) : result A :=
  match xs with
  | x :: _ => Ok x
  | [] => Raise IndexError
  end.

(** [usalex_apply_period], lines 100-107: the detector filter and the
    two emission masks restricted to the photons that survive it. *)
Definition emission_masks (d : Data)
  : result (list Z * list bool * list bool) :=
  let '(donor_ch, accept_ch) := det_donor_accept d in
  det ← attr (det_t d);
  let d_ch_mask_t := map (fun l => l =? donor_ch) det in
  let a_ch_mask_t := map (fun l => l =? accept_ch) det in
  valid_mask ← Np.bor d_ch_mask_t a_ch_mask_t;
  times ← attr (ph_times_t d);
  ph_times_val ← Np.mask_index times valid_mask;
  d_ch_mask_val ← Np.mask_index d_ch_mask_t valid_mask;
  a_ch_mask_val ← Np.mask_index a_ch_mask_t valid_mask;
  mret (ph_times_val, d_ch_mask_val, a_ch_mask_val).

(** Lines 108-109: the two emission-partition assertions. *)
Definition emission_checks (d_ch_mask_val a_ch_mask_val : list bool)
  : result unit :=
  s ← Np.bor d_ch_mask_val a_ch_mask_val;
  _ ← assert_ EmissionExhaustive (Np.all s);
  p ← Np.band d_ch_mask_val a_ch_mask_val;
  assert_ EmissionExclusive (negb (Np.any p)).

(** Lines 115-118: the two excitation masks and the overlap assertion. *)
Definition excitation_masks (d : Data) (ph_times_val : list Z)
  : result (list bool * list bool) :=
  let d_ex_mask_val := _select_range ph_times_val (alex_period d) (D_ON d) in
  let a_ex_mask_val := _select_range ph_times_val (alex_period d) (A_ON d) in
  p ← Np.band d_ex_mask_val a_ex_mask_val;
  _ ← assert_ ExcitationExclusive (negb (Np.any p));
  mret (d_ex_mask_val, a_ex_mask_val).

(** Lines 120-141: the alternation transients are removed, the outputs
    are checked and stored, the raw arrays are deleted on request. *)
Definition usalex_apply_period (d : Data) (delete_ph_t : bool) : result Data :=
  '(ph_times_val, d_ch_mask_val, a_ch_mask_val) ← emission_masks d;
  _ ← emission_checks d_ch_mask_val a_ch_mask_val;
  '(d_ex_mask_val, a_ex_mask_val) ← excitation_masks d ph_times_val;
  mask ← Np.bor d_ex_mask_val a_ex_mask_val;
  ph_times ← Np.mask_index ph_times_val mask;
  d_em ← Np.mask_index d_ch_mask_val mask;
  a_em ← Np.mask_index a_ch_mask_val mask;
  d_ex ← Np.mask_index d_ex_mask_val mask;
  a_ex ← Np.mask_index a_ex_mask_val mask;
  _ ← assert_ EmissionCount (Np.sum d_em + Np.sum a_em =? Np.size ph_times);
  p ← Np.band d_em a_em;
  _ ← assert_ EmissionExclusiveOut (eqb (Np.any p) false);
  _ ← assert_ OutputSizes
        ((Np.size a_ex =? Np.size a_em) && (Np.size a_em =? Np.size d_ex)
         && (Np.size d_ex =? Np.size d_em) && (Np.size d_em =? Np.size ph_times));
  let d1 := add d ph_times d_em a_em d_ex a_ex in
  m ← attr (ph_times_m d1);
  m0 ← item0 m;
  a ← attr (A_em d1);
  a0 ← item0 a;
  _ ← assert_ StoredSizes (Np.size m0 =? Np.size a0);
  mret (if delete_ph_t then delete_raw d1 else d1).


(** Every surviving photon satisfies exactly one of the two masks. *)
Definition exactly_one (dm am : list bool) : Prop :=
  Forall2 (fun a b => xorb a b = true) dm am.

(** The classifier's membership test for one timestamp. *)
Definition classified (d : Data) (edges : Z * Z) (t : Z) : Prop :=
  _select_range [t] (alex_period d) edges = [true].

(** The run stops on an [assert]. *)
Definition aborts {A} (r : result A) : Prop :=
  exists a, r = Raise (AssertionError a).

(** Some photon that survives the detector filter is classified inside
    both the donor and the acceptor window. *)
Definition overlap_photon (d : Data) : Prop :=
  exists ph dm am t,
    emission_masks d = Ok (ph, dm, am) /\ t ∈ ph /\
    classified d (D_ON d) t /\ classified d (A_ON d) t.

(** Sample acquisitions: the setup of [load_usalex] with five photons,
    one of them on a third detector; and two setups that give the same id
    to both detectors, with disjoint and with identical windows. *)
Definition d_sample : Data :=
  mkData (0, 1) (Some [0; 1; 2; 1; 0]) (Some [3000; 1000; 3100; 700; 5000])
         4000 (2850, 580) (930, 2580) None None None None None.

Definition d_same_id_disjoint : Data :=
  mkData (0, 0) (Some [0]) (Some [100])
         4000 (50, 150) (200, 300) None None None None None.

Definition d_same_id_overlap : Data :=
  mkData (0, 0) (Some [0]) (Some [100])
         4000 (50, 150) (50, 150) None None None None None.

(** [load_usalex], lines 76-85: the [Data] object of a usALEX file, with
    the windows, the period and the detector ids the loader sets. The two
    arrays are what [load_sm] read from the file. *)
Definition load_usalex (ph_times_t det_t : list Z) : Data :=
  let DONOR_ON := (2850, 580) in
  let ACCEPT_ON := (930, 2580) in
  let alex_period := 4000 in
  mkData (0, 1) (Some det_t) (Some ph_times_t) alex_period
         DONOR_ON ACCEPT_ON None None None None None.

(** The window test of [_select_range] on one timestamp. *)
Definition in_window (period : Z) (edges : Z * Z) (t : Z) : bool :=
  let r := Np.mod_ t period in
  if edges.1 <? edges.2 then (edges.1 <? r) && (r <? edges.2)
  else (edges.1 <? r) || (r <? edges.2).

(** A photon, with its timestamp and detector label, is kept by
    [usalex_apply_period]: it is on one of the two detectors and inside
    one of the two windows. *)
Definition retained (d : Data) (p : Z * Z) : bool :=
  ((p.2 =? (det_donor_accept d).1) || (p.2 =? (det_donor_accept d).2))
  && (in_window (alex_period d) (D_ON d) p.1
      || in_window (alex_period d) (A_ON d) p.1).

End Loaders.

(** ** select_bursts.py: the burst-selection predicates *)

(** Per-burst statistics are numpy float arrays and the parameters are
    Python floats. The predicates are embedded over an interface of the
    float operations they use, so that what is proved of them does not
    depend on how floats round; the rationals are an instance, used to run
    the predicates on inputs where float arithmetic is exact. *)
Class Float (A : Type) : Type := {
  of_Z : Z -> A;              (* an integer converted to a float *)
  lit : Q -> A;               (* a float literal such as [1e-3] *)
  fadd : A -> A -> A;
  fsub : A -> A -> A;
  fmul : A -> A -> A;
  fdiv : A -> A -> A;         (* numpy division: total, no exception *)
  fabs : A -> A;
  fle : A -> A -> bool;       (* [x <= y] *)
  flt : A -> A -> bool;       (* [x < y] *)
  feqb : A -> A -> bool;      (* [x == y] *)
  fmax : A -> A -> A;         (* numpy [maximum] *)
  around : A -> Z;            (* [np.around], read as an integer *)
  fmt_d : A -> result Z       (* the integer that ['%d' % x] prints; an
                                 infinity raises [OverflowError], a NaN
                                 [ValueError] *)
}.

(** The one law of the order that a proof below relies on; it holds of
    IEEE floats (a comparison with NaN is false) and of the rationals. *)
Class FloatOrder (A : Type) `{Float A} : Prop := {
  fle_trans : forall x y z : A, fle x y = true -> fle y z = true -> fle x z = true
}.

(** What the predicates use and the source files do not define: the
    statistics routines of scipy and numpy, which act on every element of
    an array, and the clock period that [utils.misc.clk_to_s] applies. They
    stay parameters. *)
Class Extern (A : Type) : Type := {
  poisson_isf : A -> A -> A;            (* [ss.poisson(mu).isf(P)] *)
  binom_ppf : Z -> A -> A -> A;         (* [ss.binom(n, F).ppf(P_th)] *)
  percentile : list A -> A -> result A; (* [np.percentile(a, q=q)] *)
  clk_to_s_period : A                   (* seconds per tick in [clk_to_s] *)
}.

(** Round half to even on the rationals. *)
Definition Qaround (x : Q) : Z :=
  let f := Qfloor x in
  let r := (x - inject_Z f)%Q in
  match Qcompare r (1 # 2) with
  | Lt => f
  | Gt => f + 1
  | Eq => if Z.even f then f else f + 1
  end.

#[export] Instance Q_Float : Float Q := {|
  of_Z := inject_Z;
  lit := fun q => q;
  fadd := Qplus;
  fsub := Qminus;
  fmul := Qmult;
  fdiv := Qdiv;
  fabs := Qabs;
  fle := Qle_bool;
  flt := fun x y => negb (Qle_bool y x);
  feqb := Qeq_bool;
  fmax := fun x y => if Qle_bool x y then y else x;
  around := Qaround;
  fmt_d := fun x => Ok (Z.quot (Qnum x) (Zpos (Qden x)))
|}.

Module SelectBursts.

(** A scalar parameter, or one value per channel. *)
Inductive Param (A : Type) : Type :=
  | Scalar (v : A)
  | PerChannel (vs : list A).
Arguments Scalar {A} v.
Arguments PerChannel {A} vs.

(** A row of the [mburst] array of one channel, as far as the predicates
    read it: start, width and end of the burst in clock ticks. *)
Record Burst : Set := mkBurst {
  start : Z;
  width_ : Z;
  end_ : Z
}.

(** The attributes of the [Data] object that the predicates read, one
    entry per channel. Every attribute a predicate reads is taken to be
    set. *)
Module Data.
Record t (A : Type) : Type := mk {
  nch : nat;
  ALEX : bool;
  clk_p : A;
  E : list (list A);
  S : list (list A);
  nd : list (list A);
  na : list (list A);
  naa : list (list A);
  nt : list (list A);
  bp : list (list Z);
  mburst : list (list Burst);
  max_rate : list (list A);
  bg : list (list A);
  bg_dd : list (list A);
  bg_ad : list (list A);
  bg_aa : list (list A);
  rate_m : list A;
  rate_dd : list A;
  rate_ad : list A;
  rate_aa : list A
}.
Arguments mk {A}.
Arguments nch {A}. Arguments ALEX {A}. Arguments clk_p {A}.
Arguments E {A}. Arguments S {A}. Arguments nd {A}. Arguments na {A}.
Arguments naa {A}. Arguments nt {A}. Arguments bp {A}.
Arguments mburst {A}. Arguments max_rate {A}. Arguments bg {A}.
Arguments bg_dd {A}. Arguments bg_ad {A}. Arguments bg_aa {A}.
Arguments rate_m {A}. Arguments rate_dd {A}. Arguments rate_ad {A}.
Arguments rate_aa {A}.
End Data.

(** Channel [ich] has zero bursts: its per-burst arrays are empty; the
    background rates, which do not depend on the bursts, are set. *)
Record EmptyChannel {A : Type} (d : Data.t A) (ich : nat) : Prop := {
  empty_E : Data.E d !! ich = Some [];
  empty_S : Data.S d !! ich = Some [];
  empty_nd : Data.nd d !! ich = Some [];
  empty_na : Data.na d !! ich = Some [];
  empty_naa : Data.naa d !! ich = Some [];
  empty_nt : Data.nt d !! ich = Some [];
  empty_bp : Data.bp d !! ich = Some [];
  empty_mburst : Data.mburst d !! ich = Some [];
  empty_max_rate : Data.max_rate d !! ich = Some [];
  set_bg : is_Some (Data.bg d !! ich);
  set_bg_dd : is_Some (Data.bg_dd d !! ich);
  set_bg_ad : is_Some (Data.bg_ad d !! ich);
  set_bg_aa : is_Some (Data.bg_aa d !! ich);
  set_rate_m : is_Some (Data.rate_m d !! ich);
  set_rate_dd : is_Some (Data.rate_dd d !! ich);
  set_rate_ad : is_Some (Data.rate_ad d !! ich);
  set_rate_aa : is_Some (Data.rate_aa d !! ich)
}.

(** Channel [ich] does not exist: no per-channel attribute has an entry
    for it. *)
Record NoChannel {A : Type} (d : Data.t A) (ich : nat) : Prop := {
  no_E : Data.E d !! ich = None;
  no_S : Data.S d !! ich = None;
  no_nd : Data.nd d !! ich = None;
  no_na : Data.na d !! ich = None;
  no_naa : Data.naa d !! ich = None;
  no_nt : Data.nt d !! ich = None;
  no_bp : Data.bp d !! ich = None;
  no_mburst : Data.mburst d !! ich = None;
  no_max_rate : Data.max_rate d !! ich = None;
  no_bg : Data.bg d !! ich = None;
  no_bg_dd : Data.bg_dd d !! ich = None;
  no_bg_ad : Data.bg_ad d !! ich = None;
  no_bg_aa : Data.bg_aa d !! ich = None;
  no_rate_m : Data.rate_m d !! ich = None;
  no_rate_dd : Data.rate_dd d !! ich = None;
  no_rate_ad : Data.rate_ad d !! ich = None;
  no_rate_aa : Data.rate_aa d !! ich = None
}.

(** [xs[i]] on a Python list, for an index that is not negative. *)
Definition item {A} (xs : list A) (i : nat) : result A :=
  match xs !! i with
  | Some x => Ok x
  | None => Raise IndexError
  end.

(** [xs[i]] on an array for an integer [i]: a negative index counts from
    the end, an index out of range raises. *)
Definition item_Z {A} (xs : list A) (i : Z) : result A :=
  let n := Z.of_nat (length xs) in
  if (0 <=? i) && (i <? n) then item xs (Z.to_nat i)
  else if (- n <=? i) && (i <? 0) then item xs (Z.to_nat (n + i))
  else Raise IndexError.

(** [xs[idx]] for an integer array [idx]. *)
Fixpoint take_items {A} (xs : list A) (idx : list Z) : result (list A) :=
  match idx with
  | [] => Ok []
  | i :: idx' =>
      x ← item_Z xs i;
      rest ← take_items xs idx';
      mret (x :: rest)
  end.

(** [a.max()] and [a.min()]: an empty array has no maximum. *)
Definition reduce {A} (f : A -> A -> A) (xs : list A) : result A :=
  match xs with
  | [] => Raise ValueError
  | x :: xs' => Ok (fold_left f xs' x)
  end.

(** [xs[1:]] and [xs[:-1]]. *)
Definition tail_ {A} (xs : list A) : list A := drop 1 xs.
Definition init_ {A} (xs : list A) : list A := take (length xs - 1) xs.

(** Modelled from the spec: [b_start] of [burstsearch.burstsearchlib] is
    not among the sources; it reads the start of every burst. *)
Definition b_start (mb : list Burst) : list Z := map start mb.

(** Modelled from the spec: [b_width] of [burstsearch.burstsearchlib] is
    not among the sources; it reads the width of every burst. *)
Definition b_width (mb : list Burst) : list Z := map width_ mb.

(** Modelled from the spec: [b_end] of [burstsearch.burstsearchlib] is
    not among the sources; it reads the end of every burst. *)
Definition b_end (mb : list Burst) : list Z := map end_ mb.

Section Predicates.
Context {A : Type} `{Float A}.

(** An array compared with a scalar: [xs >= th], [xs <= th]. *)
Definition ge_s (xs : list A) (th : A) : list bool := map (fun x => fle th x) xs.
Definition le_s (xs : list A) (th : A) : list bool := map (fun x => fle x th) xs.

(** [x / y] on Python floats. *)
Definition pydiv (x y : A) : result A :=
  if feqb y (of_Z 0) then Raise ZeroDivisionError else Ok (fdiv x y).

(** [th*1e-3/clk_p]: milliseconds converted to clock ticks. *)
Definition ms_to_ticks (th clk_p : A) : result A :=
  pydiv (fmul th (lit (1 # 1000))) clk_p.

(** [a += b] on arrays: [b] is broadcast to the shape of [a]. *)
Definition iadd (xs ys : list A) : result (list A) :=
  if Nat.eqb (length xs) (length ys) then Ok (zip_with fadd xs ys)
  else match ys with
       | [y] => Ok (map (fun x => fadd x y) xs)
       | _ => Raise ValueError
       end.

(** Modelled from the spec: [b_separation] of
    [burstsearch.burstsearchlib] is not among the sources; it gives the
    gaps [start[i+1] - end[i]] between consecutive bursts. *)
Definition b_separation (d : Data.t A) (ich : nat) : result (list Z) :=
  mb ← item (Data.mburst d) ich;
  Np.broadcast2 Z.sub (tail_ (b_start mb)) (init_ (b_end mb)).

(** *** Selection on E or S values *)

Definition E (d : Data.t A) (ich : nat) (E1 E2 : A) : result (list bool) :=
  e ← item (Data.E d) ich;
  Np.band (ge_s e E1) (le_s e E2).

Definition S (d : Data.t A) (ich : nat) (S1 S2 : A) : result (list bool) :=
  s ← item (Data.S d) ich;
  Np.band (ge_s s S1) (le_s s S2).

Definition ES (d : Data.t A) (ich : nat) (E1 E2 S1 S2 : A)
  : result (list bool) :=
  s ← item (Data.S d) ich;
  m1 ← Np.band (ge_s s S1) (le_s s S2);
  e ← item (Data.E d) ich;
  m2 ← Np.band m1 (ge_s e E1);
  Np.band m2 (le_s e E2).

Definition ellips (x y : list A) (x1 x2 y1 y2 : A) : result (list A) :=
  let rx := fmul (lit (1 # 2)) (fabs (fsub x2 x1)) in
  let ry := fmul (lit (1 # 2)) (fabs (fsub y2 y1)) in
  let mean a b := fdiv (fadd a b) (of_Z 2) in
  let sq z := fmul z z in
  Np.broadcast2 fadd
    (map (fun v => sq (fdiv (fsub v (mean x1 x2)) rx)) x)
    (map (fun v => sq (fdiv (fsub v (mean y1 y2)) ry)) y).

Definition ESe (d : Data.t A) (ich : nat) (E1 E2 S1 S2 : A)
  : result (list bool) :=
  e ← item (Data.E d) ich;
  s ← item (Data.S d) ich;
  r ← ellips e s E1 E2 S1 S2;
  mret (le_s r (of_Z 1)).

(** *** Selection on static burst size, width or period *)

Definition period (d : Data.t A) (ich : nat) (bp1 : Z) (bp2 : option Z)
  : result (list bool) :=
  bp2 ← match bp2 with
        | None => bp ← item (Data.bp d) ich; reduce Z.max bp
        | Some b => Ok b
        end;
  bp ← item (Data.bp d) ich;
  Np.band (map (fun b => bp1 <=? b) bp) (map (fun b => b <=? bp2) bp).

Definition time (d : Data.t A) (ich : nat) (time_s1 : A) (time_s2 : option A)
  : result (list bool) :=
  mb ← item (Data.mburst d) ich;
  let burst_start := map (fun s => fmul (of_Z s) (Data.clk_p d)) (b_start mb) in
  time_s2 ← match time_s2 with
            | None => reduce fmax burst_start
            | Some t => Ok t
            end;
  Np.band (ge_s burst_start time_s1) (le_s burst_start time_s2).

Definition nd (d : Data.t A) (ich : nat) (th1 th2 : A) : result (list bool) :=
  x ← item (Data.nd d) ich;
  Np.band (ge_s x th1) (le_s x th2).

Definition na (d : Data.t A) (ich : nat) (th1 th2 : A) : result (list bool) :=
  x ← item (Data.na d) ich;
  Np.band (ge_s x th1) (le_s x th2).

Definition naa (d : Data.t A) (ich : nat) (th1 th2 : A) : result (list bool) :=
  x ← item (Data.naa d) ich;
  Np.band (ge_s x th1) (le_s x th2).

(** The burst size of [nda], [nda_percentile] and [topN_nda] (lines
    98-101, 116-119 and 129-132): [nd*gamma1 + na] when [gamma1] is
    given, [nd + na/gamma] otherwise. *)
Definition burst_size (d : Data.t A) (ich : nat) (gamma : A) (gamma1 : option A)
  : result (list A) :=
  match gamma1 with
  | Some g1 =>
      x ← item (Data.nd d) ich;
      y ← item (Data.na d) ich;
      Np.broadcast2 fadd (map (fun v => fmul (fmul (of_Z 1) v) g1) x) y
  | None =>
      x ← item (Data.nd d) ich;
      y ← item (Data.na d) ich;
      Np.broadcast2 fadd x (map (fun v => fdiv (fmul (of_Z 1) v) gamma) y)
  end.

(** Lines 104-105: a threshold given per channel is replaced by the
    value of the channel when its length is the channel count. *)
Definition per_channel (d : Data.t A) (ich : nat) (th : Param A)
  : result (Param A) :=
  match th with
  | Scalar _ => Ok th
  | PerChannel vs =>
      if Nat.ltb 1 (Data.nch d) && Nat.eqb (length vs) (Data.nch d)
      then v ← item vs ich; mret (Scalar v)
      else Ok th
  end.

(** An array compared with a threshold. *)
Definition cmp_th (f : A -> A -> bool) (xs : list A) (th : Param A)
  : result (list bool) :=
  match th with
  | Scalar v => Ok (map (fun x => f x v) xs)
  | PerChannel vs => Np.broadcast2 f xs vs
  end.

(** A threshold used as one number, as [%d] and [if th2 < 1000] do for
    the label: an array of one element passes, any other array
    raises. The number is then formatted with [fmt_d], which raises for
    an infinity and for a NaN. *)
Definition as_number (e : error) (th : Param A) : result A :=
  match th with
  | Scalar v => Ok v
  | PerChannel [v] => Ok v
  | PerChannel _ => Raise e
  end.

(** Lines 98-103 of [nda]: the burst size, with [naa] added on request
    when the data is ALEX. *)
Definition nda_size (d : Data.t A) (ich : nat)
    (gamma : A) (gamma1 : option A) (add_naa : bool) : result (list A) :=
  bs ← burst_size d ich gamma gamma1;
  if Data.ALEX d && add_naa
  then x ← item (Data.naa d) ich; iadd bs x
  else Ok bs.

(** The number a threshold stands for in channel [ich]. *)
Definition threshold (e : error) (d : Data.t A) (ich : nat) (th : Param A)
  : result A :=
  th' ← per_channel d ich th; as_number e th'.

(** [nda]; of the label only the exceptions of its formatting are kept:
    ["nda_th%d" % th1] always, ["_th2_%d" % th2] when [th2 < 1000]. *)
Definition nda (d : Data.t A) (ich : nat) (th1 th2 : Param A)
    (gamma : A) (gamma1 : option A) (add_naa : bool) : result (list bool) :=
  bs ← nda_size d ich gamma gamma1 add_naa;
  th1 ← per_channel d ich th1;
  th2 ← per_channel d ich th2;
  m1 ← cmp_th (fun x v => fle v x) bs th1;
  m2 ← cmp_th (fun x v => fle x v) bs th2;
  bursts_mask ← Np.band m1 m2;
  v1 ← as_number TypeError th1;
  _ ← fmt_d v1;
  v2 ← as_number ValueError th2;
  _ ← (if flt v2 (of_Z 1000) then fmt_d v2 else Ok 0);
  mret bursts_mask.

(** The label of [nda] can be written for the threshold [th1]: it stands
    for a number that [%d] formats. *)
Definition formats_th1 (d : Data.t A) (ich : nat) (th : Param A) : Prop :=
  exists a z, threshold TypeError d ich th = Ok a /\ fmt_d a = Ok z.

(** The label of [nda] can be written for the threshold [th2]: it stands
    for a number that is not below 1000, or that [%d] formats. *)
Definition formats_th2 (d : Data.t A) (ich : nat) (th : Param A) : Prop :=
  exists b, threshold ValueError d ich th = Ok b /\
            (flt b (of_Z 1000) = false \/ exists z, fmt_d b = Ok z).

(** The threshold [th'] stands for a number that is not below the one
    [th] stands for. *)
Definition threshold_le (d : Data.t A) (ich : nat) (th th' : Param A) : Prop :=
  exists a a', threshold TypeError d ich th = Ok a /\
               threshold TypeError d ich th' = Ok a' /\ fle a a' = true.

(** [a.argsort()]: the indices of [a] in ascending order of the values.
    numpy does not fix the order of equal values; here they keep their
    order, and the proofs use only that the result lists every index
    once. *)
Fixpoint insert_sorted (x : A * nat) (l : list (A * nat)) : list (A * nat) :=
  match l with
  | [] => [x]
  | y :: l' => if flt y.1 x.1 then y :: insert_sorted x l' else x :: l
  end.

Definition argsort (xs : list A) : list nat :=
  map snd (fold_right insert_sorted [] (zip xs (seq 0 (length xs)))).

(** [xs[s:]] for an integer [s]: a negative start counts from the end,
    and the start is clipped to the array. *)
Definition slice_from {B} (xs : list B) (s : Z) : list B :=
  let n := Z.of_nat (length xs) in
  drop (Z.to_nat (if s <? 0 then Z.max (n + s) 0 else Z.min s n)) xs.

(** [mask[idx] = True] for an array of indices. *)
Definition set_true (mask : list bool) (idx : list nat) : list bool :=
  fold_left (fun m i => <[i:=true]> m) idx mask.

Definition topN_nda (d : Data.t A) (ich : nat) (N : Z)
    (gamma : A) (gamma1 : option A) : result (list bool) :=
  bs ← burst_size d ich gamma gamma1;
  let index_sorted := argsort bs in
  let burst_mask := replicate (length bs) false in
  mret (set_true burst_mask (slice_from index_sorted (- N))).

Definition width (d : Data.t A) (ich : nat) (th1 th2 : A) : result (list bool) :=
  th1 ← ms_to_ticks th1 (Data.clk_p d);
  th2 ← ms_to_ticks th2 (Data.clk_p d);
  mb ← item (Data.mburst d) ich;
  let burst_width := map of_Z (b_width mb) in
  Np.band (ge_s burst_width th1) (le_s burst_width th2).

(** *** Selection on burst rate *)

Definition max_rate (d : Data.t A) (ich : nat) (min_rate_p : A)
  : result (list bool) :=
  r ← item (Data.max_rate d) ich;
  m ← reduce fmax r;
  let min_rate := fmul m min_rate_p in
  mret (ge_s r min_rate).

(** *** Selection on burst time *)

Definition single (d : Data.t A) (ich : nat) (th : A) : result (list bool) :=
  th ← ms_to_ticks th (Data.clk_p d);
  mb ← item (Data.mburst d) ich;
  let burst_start := b_start mb in
  let burst_end := b_end mb in
  gaps ← Np.broadcast2 Z.sub (tail_ burst_start) (init_ burst_end);
  let gap_mask := map (fun g => fle th (of_Z g)) gaps in
  Np.band (gap_mask ++ [false]) ([false] ++ gap_mask).

Definition attached (d : Data.t A) (ich : nat) : result (list bool) :=
  sep ← b_separation d ich;
  mret (map (fun g => g <=? 0) sep ++ [false]).

Definition attached2 (d : Data.t A) (ich : nat) : result (list bool) :=
  sep ← b_separation d ich;
  mret ([false] ++ map (fun g => g <=? 0) sep).

Definition nearby (d : Data.t A) (ich : nat) (ms clk_p : A)
  : result (list bool) :=
  sep ← b_separation d ich;
  th ← pydiv (fmul ms (lit (1 # 1000))) clk_p;
  mret (map (fun g => fle (of_Z g) th) sep ++ [false]).

Definition nearby2 (d : Data.t A) (ich : nat) (ms clk_p : A)
  : result (list bool) :=
  sep ← b_separation d ich;
  th ← pydiv (fmul ms (lit (1 # 1000))) clk_p;
  mret ([false] ++ map (fun g => fle (of_Z g) th) sep).

(** *** Selection on burst size vs background *)

(** [bg[ich][d.bp[ich]]*b_width(d.mburst[ich])*d.clk_p]: the background
    counts expected in every burst. *)
Definition bg_burst (bg : list (list A)) (d : Data.t A) (ich : nat)
  : result (list A) :=
  rates ← item bg ich;
  bp ← item (Data.bp d) ich;
  r ← take_items rates bp;
  mb ← item (Data.mburst d) ich;
  c ← Np.broadcast2 (fun x w => fmul x (of_Z w)) r (b_width mb);
  mret (map (fun x => fmul x (Data.clk_p d)) c).

Definition nd_bg (d : Data.t A) (ich : nat) (F : A) : result (list bool) :=
  b ← bg_burst (Data.bg_dd d) d ich;
  x ← item (Data.nd d) ich;
  Np.broadcast2 (fun n v => fle v n) x (map (fmul F) b).

Definition na_bg (d : Data.t A) (ich : nat) (F : A) : result (list bool) :=
  b ← bg_burst (Data.bg_ad d) d ich;
  x ← item (Data.na d) ich;
  Np.broadcast2 (fun n v => fle v n) x (map (fmul F) b).

Definition naa_bg (d : Data.t A) (ich : nat) (F : A) : result (list bool) :=
  b ← bg_burst (Data.bg_aa d) d ich;
  x ← item (Data.naa d) ich;
  Np.broadcast2 (fun n v => fle v n) x (map (fmul F) b).

Definition nt_bg (d : Data.t A) (ich : nat) (F : A) : result (list bool) :=
  b ← bg_burst (Data.bg d) d ich;
  x ← item (Data.nt d) ich;
  Np.broadcast2 (fun n v => flt v n) x (map (fmul F) b).

(** The background counts expected in burst [i]: the rate of the period
    bin [bp[i]] times the width of the burst in ticks times the clock
    period, multiplied in the order of the source. *)
Definition expected_bg (bg : list (list A)) (d : Data.t A) (ich i : nat)
  : result A :=
  rates ← item bg ich;
  bp ← item (Data.bp d) ich;
  b ← item bp i;
  r ← item_Z rates b;
  mb ← item (Data.mburst d) ich;
  burst ← item mb i;
  mret (fmul (fmul r (of_Z (width_ burst))) (Data.clk_p d)).

(** Channel [ich] has [n] bursts, each with a period bin that indexes the
    rates [bg[ich]] (from the front or, when negative, from the end). *)
Definition binned (bg : list (list A)) (d : Data.t A) (ich n : nat) : Prop :=
  exists rates bp mb,
    bg !! ich = Some rates /\ Data.bp d !! ich = Some bp /\
    Data.mburst d !! ich = Some mb /\
    length bp = n /\ length mb = n /\
    Forall (fun b => - Z.of_nat (length rates) <= b < Z.of_nat (length rates)) bp.

(** A selector keeps burst [i] exactly when [test (F*expected) count]
    holds. *)
Definition keeps (test : A -> A -> bool) (bg counts : list (list A))
    (d : Data.t A) (ich : nat) (F : A) (mask : list bool) : Prop :=
  forall i c, item counts ich ≫= (fun x => item x i) = Ok c ->
    exists e, expected_bg bg d ich i = Ok e /\
              mask !! i = Some (test (fmul F e) c).

Definition for_bt_fit (d : Data.t A) (ich : nat) (BT : option (Param A))
  : result (list bool) :=
  let size := match BT with
              | Some (PerChannel vs) => length vs
              | _ => 1%nat
              end in
  _ ← assert_ BTSize (Nat.eqb size (Data.nch d));
  x ← item (Data.na d) ich;
  bt ← match BT with
       | Some (PerChannel vs) => item vs ich
       | _ => Raise TypeError
       end;
  y ← item (Data.nd d) ich;
  Np.broadcast2 (fun a n => fle a n) x (map (fmul (fmul (of_Z 2) bt)) y).

Definition size_noise (d : Data.t A) (ich : nat) (th : A) : result (list bool) :=
  mb ← item (Data.mburst d) ich;
  let burst_width := b_width mb in
  rd ← item (Data.rate_dd d) ich;
  ra ← item (Data.rate_ad d) ich;
  let noise_d := map (fun w => fmul (of_Z w) rd) burst_width in
  let noise_a := map (fun w => fmul (of_Z w) ra) burst_width in
  x ← item (Data.nd d) ich;
  m1 ← Np.broadcast2 (fun n v => fle v n) x (map (fmul th) noise_d);
  y ← item (Data.na d) ich;
  m2 ← Np.broadcast2 (fun n v => fle v n) y (map (fmul th) noise_a);
  Np.band m1 m2.

Definition size_noise_or (d : Data.t A) (ich : nat) (th : A)
  : result (list bool) :=
  mb ← item (Data.mburst d) ich;
  let burst_width := b_width mb in
  rd ← item (Data.rate_dd d) ich;
  ra ← item (Data.rate_ad d) ich;
  let noise_d := map (fun w => fmul (of_Z w) rd) burst_width in
  let noise_a := map (fun w => fmul (of_Z w) ra) burst_width in
  x ← item (Data.nd d) ich;
  m1 ← Np.broadcast2 (fun n v => fle v n) x (map (fmul th) noise_d);
  y ← item (Data.na d) ich;
  m2 ← Np.broadcast2 (fun n v => fle v n) y (map (fmul th) noise_a);
  Np.bor m1 m2.

(** *** Predicates that call scipy or numpy statistics *)

Context `{Extern A}.

(** Modelled from the spec: [clk_to_s] of [utils.misc] is not among the
    sources; it converts clock ticks to seconds. It is called without
    the [Data] object, so its clock period is its own. *)
Definition clk_to_s (t_ck : list Z) : list A :=
  map (fun t => fmul (of_Z t) clk_to_s_period) t_ck.

Definition nda_percentile (d : Data.t A) (ich : nat) (q : A) (low : bool)
    (gamma : A) (gamma1 : option A) : result (list bool) :=
  bs ← burst_size d ich gamma gamma1;
  q_percentile ← percentile bs q;
  let bursts_mask :=
    if low then le_s bs q_percentile else ge_s bs q_percentile in
  _ ← fmt_d q;
  mret bursts_mask.

(** The four selectors compare the counts of a burst with the inverse
    survival function, at [P], of a Poisson law of mean
    [F*rate*width]. *)
Definition na_bg_p (d : Data.t A) (ich : nat) (P F : A) : result (list bool) :=
  accept_ch_bg_rate ← item (Data.rate_ad d) ich;
  mb ← item (Data.mburst d) ich;
  let bursts_width := clk_to_s (b_width mb) in
  let max_num_bg_ph :=
    map (fun w => poisson_isf (fmul (fmul F accept_ch_bg_rate) w) P)
        bursts_width in
  x ← item (Data.na d) ich;
  Np.broadcast2 (fun n k => fle k n) x max_num_bg_ph.

Definition nd_bg_p (d : Data.t A) (ich : nat) (P F : A) : result (list bool) :=
  donor_ch_bg_rate ← item (Data.rate_dd d) ich;
  mb ← item (Data.mburst d) ich;
  let bursts_width := clk_to_s (b_width mb) in
  let max_num_bg_ph :=
    map (fun w => poisson_isf (fmul (fmul F donor_ch_bg_rate) w) P)
        bursts_width in
  x ← item (Data.nd d) ich;
  Np.broadcast2 (fun n k => fle k n) x max_num_bg_ph.

Definition naa_bg_p (d : Data.t A) (ich : nat) (P F : A) : result (list bool) :=
  A_em_ex_bg_rate ← item (Data.rate_aa d) ich;
  mb ← item (Data.mburst d) ich;
  let bursts_width := clk_to_s (b_width mb) in
  let max_num_bg_ph :=
    map (fun w => poisson_isf (fmul (fmul F A_em_ex_bg_rate) w) P)
        bursts_width in
  x ← item (Data.naa d) ich;
  Np.broadcast2 (fun n k => fle k n) x max_num_bg_ph.

Definition nt_bg_p (d : Data.t A) (ich : nat) (P F : A) : result (list bool) :=
  bg_rate ← item (Data.rate_m d) ich;
  mb ← item (Data.mburst d) ich;
  let bursts_width := clk_to_s (b_width mb) in
  let max_num_bg_ph :=
    map (fun w => poisson_isf (fmul (fmul F bg_rate) w) P) bursts_width in
  x ← item (Data.nt d) ich;
  Np.broadcast2 (fun n k => fle k n) x max_num_bg_ph.

(** [np.where(bsizes == burst_size)]: the positions of a value. *)
Definition where_eq (bsizes : list Z) (burst_size : Z) : list nat :=
  map fst (filter (fun p => p.2 = burst_size)
                  (zip (seq 0 (length bsizes)) bsizes)).

(** [xs[indexes]] for positions that are not negative. *)
Fixpoint take_at {B} (xs : list B) (idx : list nat) : result (list B) :=
  match idx with
  | [] => Ok []
  | i :: idx' =>
      x ← item xs i;
      rest ← take_at xs idx';
      mret (x :: rest)
  end.

(** [mask[indexes] = values], the two arrays having one length. *)
Fixpoint assign (mask : list bool) (idx : list nat) (values : list bool)
  : list bool :=
  match idx, values with
  | i :: idx', v :: values' => assign (<[i:=v]> mask) idx' values'
  | _, _ => mask
  end.

(** The body of the loop of [fret_value] for one burst size. *)
Definition fret_value_step (d : Data.t A) (ich : nat) (F P_th : A)
    (bsizes : list Z) (bursts_mask : list bool) (burst_size : Z)
  : result (list bool) :=
  let indexes := where_eq bsizes burst_size in
  let min_accept_num := binom_ppf burst_size F P_th in
  y ← item (Data.na d) ich;
  v ← take_at y indexes;
  mret (assign bursts_mask indexes (map (fun a => flt min_accept_num a) v)).

(** A [for] loop over a list of values, with an accumulator. *)
Fixpoint for_each {B V} (body : B -> V -> result B) (vs : list V) (acc : B)
  : result B :=
  match vs with
  | [] => Ok acc
  | v :: vs' => acc' ← body acc v; for_each body vs' acc'
  end.

(** [np.around(..).astype(np.uint16)]: the rounded size, wrapped to 16
    bits. *)
Definition to_uint16 (x : A) : Z := around x mod 65536.

(** [fret_value]; the bound [bsizes.max()+1] of the loop is taken in the
    integers. *)
Definition fret_value (d : Data.t A) (ich : nat) (F P_th : A)
  : result (list bool) :=
  x ← item (Data.nd d) ich;
  y ← item (Data.na d) ich;
  t ← Np.broadcast2 fadd x y;
  let bsizes := map to_uint16 t in
  let bursts_mask := replicate (length bsizes) false in
  lo ← reduce Z.min bsizes;
  hi ← reduce Z.max bsizes;
  for_each (fret_value_step d ich F P_th bsizes)
           (seqZ lo (hi + 1 - lo)) bursts_mask.

End Predicates.

End SelectBursts.

(** ** Sample data *)

(** ** The Poisson law behind the probabilistic selectors *)

Module Poisson.
Local Open Scope R_scope.

(** P(X = j) for X Poisson of mean [mu]. *)
Definition pmf (mu : R) (j : nat) : R := exp (- mu) * mu ^ j / INR (fact j).

(** P(X <= k). *)
Definition cdf (mu : R) (k : nat) : R := sum_f_R0 (pmf mu) k.

(** The survival function, P(X > k); it is 1 below the support. *)
Definition sf (mu : R) (k : Z) : R :=
  if (k <? 0)%Z then 1 else 1 - cdf mu (Z.to_nat k).

(** P(X >= k). *)
Definition tail (mu : R) (k : Z) : R := sf mu (k - 1).

(** What scipy documents for [isf] of a discrete law: the inverse of the
    survival function, the smallest [k] with [sf k <= P]. *)
Definition is_isf (mu P : R) (k : Z) : Prop :=
  sf mu k <= P /\ forall j : Z, (j < k)%Z -> P < sf mu j.

(** The smallest count [k] with P(X >= k) <= P. *)
Definition is_threshold (mu P : R) (k : Z) : Prop :=
  (0 <= k)%Z /\ tail mu k <= P /\
  forall j : Z, (0 <= j < k)%Z -> P < tail mu j.

(** An implementation of the external routines whose [poisson_isf]
    returns the documented value wherever there is one. *)
Definition documented (ext : Extern Q) : Prop :=
  forall (mu P : Q) (k : Z),
    is_isf (Q2R mu) (Q2R P) k -> @poisson_isf Q ext mu P = inject_Z k.

(** The documented inverse survival function, as a function. *)
Definition isf_doc (mu P : Q) : Q :=
  inject_Z (epsilon (inhabits 0%Z) (is_isf (Q2R mu) (Q2R P))).

End Poisson.

Module Samples.
Import SelectBursts.
Local Open Scope Q_scope.

(** One channel with three bursts that touch each other; clock period
    1/8 s, two period bins with background rates 1 and 2. *)
Definition three_bursts : Data.t Q :=
  Data.mk 1 false (1 # 8)
    [[1 # 2; 1 # 4; 3 # 4]] [[1 # 2; 1 # 2; 1 # 2]]
    [[5; 3; 10]] [[2; 7; 1]] [[0; 0; 0]] [[5; 10; 11]]
    [[0; 0; 1]%Z]
    [[mkBurst 0 8 8; mkBurst 8 16 24; mkBurst 24 8 32]]
    [[1; 2; 3]]
    [[1; 2]] [[1; 2]] [[1; 2]] [[1; 2]]
    [1] [1] [1] [1].

(** One channel without any burst. *)
Definition no_burst : Data.t Q :=
  Data.mk 1 false (1 # 8)
    [[]] [[]] [[]] [[]] [[]] [[]] [[]] [[]] [[]]
    [[1; 2]] [[1; 2]] [[1; 2]] [[1; 2]]
    [1] [1] [1] [1].

(** An instance of [Extern] to run the predicates on data for which the
    statistics routines are not reached. *)
Definition no_stats : Extern Q :=
  {| poisson_isf := fun _ _ => 0;
     binom_ppf := fun _ _ _ => 0;
     percentile := fun _ _ => Raise ValueError;
     clk_to_s_period := 1 # 8 |}.

(** Two channels with two bursts each. *)
Definition two_channels : Data.t Q :=
  Data.mk 2 false (1 # 8)
    [[1 # 2; 1 # 4]; [1 # 2; 3 # 4]] [[1 # 2; 1 # 2]; [1 # 2; 1 # 2]]
    [[5; 3]; [10; 20]] [[2; 7]; [1; 4]] [[0; 0]; [0; 0]] [[7; 10]; [11; 24]]
    [[0; 1]%Z; [0; 0]%Z]
    [[mkBurst 0 8 8; mkBurst 16 8 24]; [mkBurst 0 8 8; mkBurst 40 16 56]]
    [[1; 2]; [3; 4]]
    [[1; 2]; [1; 2]] [[1; 2]; [1; 2]] [[1; 2]; [1; 2]] [[1; 2]; [1; 2]]
    [1; 1] [1; 1] [1; 1] [1; 1].

(** The three bursts again, the second one with a period bin for which
    there is no background rate. *)
Definition bad_bin : Data.t Q :=
  Data.mk 1 false (1 # 8)
    [[1 # 2; 1 # 4; 3 # 4]] [[1 # 2; 1 # 2; 1 # 2]]
    [[5; 3; 10]] [[2; 7; 1]] [[0; 0; 0]] [[5; 10; 11]]
    [[0; 2; 1]%Z]
    [[mkBurst 0 8 8; mkBurst 8 16 24; mkBurst 24 8 32]]
    [[1; 2; 3]]
    [[1; 2]] [[1; 2]] [[1; 2]] [[1; 2]]
    [1] [1] [1] [1].

(** One channel with one burst of 8000 ticks (100 microseconds at the
    clock period of 12.5 ns) and two photons in every stream, over a
    background of 6000 counts per second: 0.6 background counts are
    expected in the burst. *)
Definition faint_burst : Data.t Q :=
  Data.mk 1 false (1 # 80000000)
    [[1 # 2]] [[1 # 2]]
    [[2]] [[2]] [[2]] [[2]]
    [[0]%Z]
    [[mkBurst 0 8000 8000]]
    [[1]]
    [[6000]] [[6000]] [[6000]] [[6000]]
    [6000] [6000] [6000] [6000].

(** An instance of [Extern] whose [poisson_isf] is the documented one and
    whose clock period is 12.5 ns; the other routines are not reached by
    the background selectors. *)
Definition documented_isf : Extern Q :=
  {| poisson_isf := Poisson.isf_doc;
     binom_ppf := fun _ _ _ => 0;
     percentile := fun _ _ => Raise ValueError;
     clk_to_s_period := 1 # 80000000 |}.

End Samples.

(** ** Facts about the primitives *)

Lemma bind_Ok {A B} (m : result A) (k : A -> result B) (b : B) :
  m ≫= k = Ok b -> exists a, m = Ok a /\ k a = Ok b.
Proof. destruct m as [a|e]; simpl; [eauto | discriminate]. Qed.

Module NpFacts.

Lemma broadcast2_same {A B C} (f : A -> B -> C) xs ys :
  length xs = length ys -> Np.broadcast2 f xs ys = Ok (zip_with f xs ys).
Proof. intros H. unfold Np.broadcast2. now rewrite H, Nat.eqb_refl. Qed.

Lemma mask_index_same {A} (xs : list A) m :
  length xs = length m -> Np.mask_index xs m = Ok (Np.select xs m).
Proof. intros H. unfold Np.mask_index. now rewrite H, Nat.eqb_refl. Qed.

Lemma mask_index_Ok {A} (xs ys : list A) m :
  Np.mask_index xs m = Ok ys -> length xs = length m /\ ys = Np.select xs m.
Proof.
  unfold Np.mask_index. destruct (Nat.eqb_spec (length xs) (length m));
    [intros [= <-]; auto | discriminate].
Qed.

Lemma mask_index_Raise {A} (xs : list A) m e :
  Np.mask_index xs m = Raise e -> e = IndexError.
Proof.
  unfold Np.mask_index. destruct (Nat.eqb _ _); [discriminate | congruence].
Qed.

Lemma select_map {A B} (f : A -> B) xs m :
  Np.select (map f xs) m = map f (Np.select xs m).
Proof.
  revert m. induction xs as [|x xs IH]; intros [|[] m]; simpl;
    rewrite ?IH; reflexivity.
Qed.

Lemma select_length {A B} (xs : list A) (ys : list B) m :
  length xs = length m -> length ys = length m ->
  length (Np.select xs m) = length (Np.select ys m).
Proof.
  revert xs ys. induction m as [|b m IH]; intros [|x xs] [|y ys]; simpl;
    try discriminate; auto.
  intros [= Hx] [= Hy]. destruct b; simpl; auto.
Qed.

Lemma select_Forall2 {A B} (R : A -> B -> Prop) xs ys m :
  Forall2 R xs ys -> Forall2 R (Np.select xs m) (Np.select ys m).
Proof.
  intros H. revert m. induction H as [|x y xs ys Hxy H IH]; intros [|b m];
    simpl; try constructor.
  destruct b; [constructor |]; auto.
Qed.

Lemma select_by_test {A} (h : A -> bool) xs :
  Forall (fun x => h x = true) (Np.select xs (map h xs)).
Proof.
  induction xs as [|x xs IH]; simpl; [constructor |].
  destruct (h x) eqn:E; [constructor |]; auto.
Qed.

Lemma any_true_iff m : Np.any m = true <-> exists i, m !! i = Some true.
Proof.
  induction m as [|b m IH]; simpl.
  - split; [discriminate | intros [i Hi]; now rewrite lookup_nil in Hi].
  - rewrite orb_true_iff, IH. split.
    + intros [Hb | [i Hi]]; [exists 0%nat; destruct b; simpl in *; congruence
                            | exists (S i); exact Hi].
    + intros [[|i] Hi]; simpl in Hi; [left; destruct b; simpl; congruence
                                     | right; eauto].
Qed.

End NpFacts.

Module LoadersFacts.
Import Loaders NpFacts.

Lemma zip_with_map_same {A B C D} (f : B -> C -> D) (g : A -> B) (h : A -> C)
    (xs : list A) :
  zip_with f (map g xs) (map h xs) = map (fun x => f (g x) (h x)) xs.
Proof. induction xs as [|x xs IH]; simpl; [reflexivity | now rewrite IH]. Qed.

Lemma select_range_map times period edges :
  _select_range times period edges =
  map (fun t => let r := Np.mod_ t period in
                if edges.1 <? edges.2
                then (edges.1 <? r) && (r <? edges.2)
                else (edges.1 <? r) || (r <? edges.2)) times.
Proof.
  unfold _select_range, _select_inner_range, _select_outer_range.
  destruct (edges.1 <? edges.2); now rewrite zip_with_map_same.
Qed.

Lemma select_range_length times period edges :
  length (_select_range times period edges) = length times.
Proof. rewrite select_range_map. apply length_map. Qed.

Lemma exactly_one_length dm am : exactly_one dm am -> length dm = length am.
Proof. apply Forall2_length. Qed.

Lemma exactly_one_sum dm am :
  exactly_one dm am -> Np.sum dm + Np.sum am = Np.size dm.
Proof.
  unfold Np.size. induction 1 as [|a b dm am Hab _ IH]; simpl; [reflexivity|].
  destruct a, b; simpl in Hab; try discriminate; lia.
Qed.

Lemma exactly_one_any dm am :
  exactly_one dm am -> Np.any (zip_with andb dm am) = false.
Proof.
  induction 1 as [|a b dm am Hab _ IH]; simpl; [reflexivity|].
  rewrite IH. destruct a, b; simpl in Hab; try discriminate; reflexivity.
Qed.

Lemma exactly_one_all dm am :
  exactly_one dm am -> Np.all (zip_with orb dm am) = true.
Proof.
  induction 1 as [|a b dm am Hab _ IH]; simpl; [reflexivity|].
  rewrite IH. destruct a, b; simpl in Hab; try discriminate; reflexivity.
Qed.

Lemma exactly_one_checks dm am :
  exactly_one dm am -> emission_checks dm am = Ok tt.
Proof.
  intros H. unfold emission_checks, Np.bor, Np.band.
  rewrite !broadcast2_same by now apply exactly_one_length.
  simpl. rewrite exactly_one_all by assumption. simpl.
  now rewrite exactly_one_any.
Qed.

Lemma checks_exactly_one dm am :
  length dm = length am -> emission_checks dm am = Ok tt -> exactly_one dm am.
Proof.
  intros Hlen. unfold emission_checks, Np.bor, Np.band.
  rewrite !broadcast2_same by assumption. simpl.
  destruct (Np.all (zip_with orb dm am)) eqn:Hall; simpl; [|discriminate].
  destruct (Np.any (zip_with andb dm am)) eqn:Hany; simpl; [discriminate|].
  intros _. revert am Hlen Hall Hany.
  induction dm as [|a dm IH]; intros [|b am]; simpl; try discriminate.
  - constructor.
  - intros [= Hlen] Hall Hany.
    apply andb_true_iff in Hall as [Hab Hall].
    apply orb_false_iff in Hany as [Hab' Hany].
    constructor; [destruct a, b; simpl in *; congruence | now apply IH].
Qed.

(** The checks raise nothing but their own two assertions. *)
Lemma emission_checks_Raise dm am e :
  length dm = length am -> emission_checks dm am = Raise e ->
  e = AssertionError EmissionExhaustive \/ e = AssertionError EmissionExclusive.
Proof.
  intros Hlen. unfold emission_checks, Np.bor, Np.band.
  rewrite !broadcast2_same by assumption. simpl.
  destruct (Np.all _); simpl; [|intros [= <-]; now left].
  destruct (Np.any _); simpl; [intros [= <-]; now right | discriminate].
Qed.

Lemma emission_masks_Ok d ph dm am :
  emission_masks d = Ok (ph, dm, am) ->
  exists det times,
    det_t d = Some det /\ ph_times_t d = Some times /\
    length times = length det /\
    let valid := map (fun l => (l =? (det_donor_accept d).1)
                               || (l =? (det_donor_accept d).2)) det in
    ph = Np.select times valid /\
    dm = map (fun l => l =? (det_donor_accept d).1) (Np.select det valid) /\
    am = map (fun l => l =? (det_donor_accept d).2) (Np.select det valid).
Proof.
  unfold emission_masks. destruct (det_donor_accept d) as [donor accept].
  destruct (det_t d) as [det|]; simpl; [|discriminate].
  unfold Np.bor. rewrite broadcast2_same by now rewrite !length_map.
  simpl. rewrite zip_with_map_same.
  destruct (ph_times_t d) as [times|]; simpl; [|discriminate].
  intros H. apply bind_Ok in H as (ph' & Hph & H).
  apply mask_index_Ok in Hph as [Hlen ->].
  rewrite !mask_index_same in H by now rewrite !length_map.
  simpl in H. injection H as <- <- <-.
  exists det, times. rewrite length_map in Hlen.
  repeat split; auto; now rewrite select_map.
Qed.

Lemma emission_masks_Raise d e :
  emission_masks d = Raise e -> e = AttributeError \/ e = IndexError.
Proof.
  unfold emission_masks. destruct (det_donor_accept d) as [donor accept].
  destruct (det_t d) as [det|]; simpl; [|intros [= <-]; now left].
  unfold Np.bor. rewrite broadcast2_same by now rewrite !length_map.
  simpl. destruct (ph_times_t d) as [times|]; simpl; [|intros [= <-]; now left].
  destruct (Np.mask_index times _) as [ph|e'] eqn:E; simpl.
  - rewrite !mask_index_same
      by now rewrite length_zip_with, !length_map, Nat.min_id.
    discriminate.
  - apply mask_index_Raise in E as ->. intros [= <-]. now right.
Qed.

Lemma emission_masks_lengths d ph dm am :
  emission_masks d = Ok (ph, dm, am) ->
  length dm = length ph /\ length am = length ph.
Proof.
  intros H. apply emission_masks_Ok in H
    as (det & times & _ & _ & Hlen & -> & -> & ->).
  rewrite !length_map.
  split; apply select_length; rewrite ?length_map; auto.
Qed.

(** With two distinct detector ids the masks partition the survivors. *)
Lemma emission_masks_partition d ph dm am :
  (det_donor_accept d).1 <> (det_donor_accept d).2 ->
  emission_masks d = Ok (ph, dm, am) -> exactly_one dm am.
Proof.
  intros Hne H. apply emission_masks_Ok in H
    as (det & times & _ & _ & _ & _ & -> & ->).
  set (donor := (det_donor_accept d).1) in *.
  set (accept := (det_donor_accept d).2) in *.
  pose proof (select_by_test
    (fun l => (l =? donor) || (l =? accept)) det) as Hall.
  unfold exactly_one. induction Hall as [|l ls Hl _ IH]; simpl; constructor; auto.
  destruct (Z.eqb_spec l donor), (Z.eqb_spec l accept);
    simpl in *; congruence.
Qed.

(** A run on the sample acquisition: the photon on the third detector and
    the photon at 700 ticks, in neither window, are dropped. *)
Example usalex_sample_run :
  usalex_apply_period d_sample true
  = Ok (mkData (0, 1) None None 4000 (2850, 580) (930, 2580)
          (Some [[3000; 1000; 5000]])
          (Some [[true; false; true]]) (Some [[false; true; false]])
          (Some [[true; false; false]]) (Some [[false; true; true]])).
Proof. reflexivity. Qed.

Lemma usalex_run d del ph dm am :
  emission_masks d = Ok (ph, dm, am) -> exactly_one dm am ->
  let dx := _select_range ph (alex_period d) (D_ON d) in
  let ax := _select_range ph (alex_period d) (A_ON d) in
  let mask := zip_with orb dx ax in
  usalex_apply_period d del =
    if Np.any (zip_with andb dx ax)
    then Raise (AssertionError ExcitationExclusive)
    else Ok (let d1 := add d (Np.select ph mask) (Np.select dm mask)
                         (Np.select am mask) (Np.select dx mask)
                         (Np.select ax mask) in
             if del then delete_raw d1 else d1).
Proof.
  intros Hm Hx dx ax mask.
  destruct (emission_masks_lengths _ _ _ _ Hm) as [Hdm Ham].
  assert (Hdx : length dx = length ph) by apply select_range_length.
  assert (Hax : length ax = length ph) by apply select_range_length.
  assert (Hmask : length mask = length ph)
    by (unfold mask; rewrite length_zip_with; lia).
  unfold usalex_apply_period. rewrite Hm. simpl.
  rewrite (exactly_one_checks _ _ Hx). simpl.
  unfold excitation_masks, Np.band, Np.bor. fold dx ax.
  rewrite (broadcast2_same andb dx ax) by congruence. simpl.
  destruct (Np.any (zip_with andb dx ax)); simpl; [reflexivity|].
  rewrite (broadcast2_same orb dx ax) by congruence. simpl. fold mask.
  rewrite !mask_index_same by congruence. simpl.
  pose proof (select_Forall2 _ _ _ mask Hx) as Hx'. fold (exactly_one) in Hx'.
  rewrite (exactly_one_sum _ _ Hx').
  unfold Np.size.
  rewrite (select_length dm ph mask), (select_length am ph mask),
          (select_length dx ph mask), (select_length ax ph mask) by congruence.
  rewrite !Z.eqb_refl. simpl.
  rewrite broadcast2_same
    by (apply exactly_one_length in Hx'; exact Hx').
  simpl. rewrite (exactly_one_any _ _ Hx'). simpl.
  reflexivity.
Qed.

Lemma classified_iff d edges t :
  classified d edges t <->
  (let r := Np.mod_ t (alex_period d) in
   if edges.1 <? edges.2 then (edges.1 <? r) && (r <? edges.2)
   else (edges.1 <? r) || (r <? edges.2)) = true.
Proof.
  unfold classified. rewrite select_range_map. simpl.
  split; [intros [= ->]; reflexivity | intros ->; reflexivity].
Qed.

Lemma overlap_any d ph :
  Np.any (zip_with andb (_select_range ph (alex_period d) (D_ON d))
                        (_select_range ph (alex_period d) (A_ON d))) = true
  <-> exists t, t ∈ ph /\ classified d (D_ON d) t /\ classified d (A_ON d) t.
Proof.
  rewrite !select_range_map, zip_with_map_same, any_true_iff.
  split.
  - intros [i Hi]. rewrite list_lookup_fmap in Hi.
    destruct (ph !! i) as [t|] eqn:Ht; simpl in Hi; [|discriminate].
    injection Hi as Hi. apply andb_true_iff in Hi as [HD HA].
    exists t. rewrite !classified_iff.
    split; [eapply list_elem_of_lookup_2; eauto | auto].
  - intros (t & Hin & HD & HA). rewrite classified_iff in HD, HA.
    apply list_elem_of_lookup_1 in Hin as [i Hi]. exists i.
    rewrite list_lookup_fmap, Hi. simpl in *. now rewrite HD, HA.
Qed.

(** C1. For integer timestamps, a period > 0 and a window (e0, e1), the
    mask of [_select_range] is as long as the input and, with
    r = t mod period, is true at index i exactly when
    (e0 < e1 and e0 < r_i < e1) or (e0 >= e1 and (r_i > e0 or r_i < e1));
    the comparisons are strict, so r_i = e0 and r_i = e1 give false. *)
Theorem select_range_spec (times : list Z) (period e0 e1 : Z) :
  0 < period ->
  length (_select_range times period (e0, e1)) = length times /\
  (forall (i : nat) (t : Z), times !! i = Some t ->
     exists b, _select_range times period (e0, e1) !! i = Some b /\
       (b = true <->
          (e0 < e1 /\ e0 < t mod period < e1) \/
          (e0 >= e1 /\ (t mod period > e0 \/ t mod period < e1))) /\
       (t mod period = e0 \/ t mod period = e1 -> b = false)).
Proof.
  intros Hp. rewrite select_range_map. split.
  - now rewrite length_map.
  - intros i t Hi. eexists. split.
    + rewrite list_lookup_fmap, Hi. reflexivity.
    + simpl. unfold Np.mod_.
      destruct (Z.eqb_spec period 0) as [->|_]; [lia|].
      destruct (Z.ltb_spec e0 e1), (Z.ltb_spec e0 (t mod period)),
               (Z.ltb_spec (t mod period) e1); simpl; split;
        try (intros; lia); try (split; [discriminate | lia]);
        try (split; [intros _; lia | reflexivity]).
Qed.

Lemma select_range_spec_witness :
  0 < 4000 /\
  length (_select_range [3000; 1000; 700; 6850; 580] 4000 (2850, 580))
    = length [3000; 1000; 700; 6850; 580] /\
  (forall (i : nat) (t : Z), [3000; 1000; 700; 6850; 580] !! i = Some t ->
     exists b,
       _select_range [3000; 1000; 700; 6850; 580] 4000 (2850, 580) !! i = Some b /\
       (b = true <->
          (2850 < 580 /\ 2850 < t mod 4000 < 580) \/
          (2850 >= 580 /\ (t mod 4000 > 2850 \/ t mod 4000 < 580))) /\
       (t mod 4000 = 2850 \/ t mod 4000 = 580 -> b = false)).
Proof.
  split; [lia|].
  apply (select_range_spec [3000; 1000; 700; 6850; 580] 4000 2850 580). lia.
Defined.

(** The three timestamps worked out in the specification: 3000 is donor
    excited, 1000 acceptor excited, 700 falls in neither window. *)
Example select_range_samples :
  _select_range [3000; 1000; 700] 4000 (2850, 580) = [true; false; false] /\
  _select_range [3000; 1000; 700] 4000 (930, 2580) = [false; true; false].
Proof. split; reflexivity. Qed.

(** C2. Every run of [usalex_apply_period] that returns stores five
    arrays (times, donor emission, acceptor emission, donor excitation,
    acceptor excitation) of one and the same length, and the number of
    true entries of the donor-emission mask plus that of the
    acceptor-emission mask is that length. *)
Theorem usalex_outputs_aligned (d d' : Data) (del : bool) :
  usalex_apply_period d del = Ok d' ->
  exists ph d_em a_em d_ex a_ex,
    ph_times_m d' = Some [ph] /\
    D_em d' = Some [d_em] /\ A_em d' = Some [a_em] /\
    D_ex d' = Some [d_ex] /\ A_ex d' = Some [a_ex] /\
    length d_em = length ph /\ length a_em = length ph /\
    length d_ex = length ph /\ length a_ex = length ph /\
    Np.sum d_em + Np.sum a_em = Np.size ph.
Proof.
  intros Hrun. pose proof Hrun as H.
  unfold usalex_apply_period in H.
  apply bind_Ok in H as ([[ph dm] am] & Hm & H).
  apply bind_Ok in H as ([] & Hc & _).
  destruct (emission_masks_lengths _ _ _ _ Hm) as [Hdm Ham].
  apply checks_exactly_one in Hc; [|congruence].
  rewrite (usalex_run d del ph dm am Hm Hc) in Hrun.
  destruct (Np.any _); [discriminate|]. injection Hrun as <-.
  set (dx := _select_range ph (alex_period d) (D_ON d)).
  set (ax := _select_range ph (alex_period d) (A_ON d)).
  set (mask := zip_with orb dx ax).
  assert (Hdx : length dx = length ph) by apply select_range_length.
  assert (Hax : length ax = length ph) by apply select_range_length.
  assert (Hmask : length mask = length ph)
    by (unfold mask; rewrite length_zip_with; lia).
  exists (Np.select ph mask), (Np.select dm mask), (Np.select am mask),
         (Np.select dx mask), (Np.select ax mask).
  repeat split; try (destruct del; reflexivity);
    try (apply select_length; congruence).
  rewrite (exactly_one_sum _ _ (select_Forall2 _ _ _ mask Hc)).
  unfold Np.size. f_equal. apply select_length; congruence.
Qed.

Lemma usalex_outputs_aligned_witness :
  exists d',
    usalex_apply_period d_sample true = Ok d' /\
    exists ph d_em a_em d_ex a_ex,
      ph_times_m d' = Some [ph] /\
      D_em d' = Some [d_em] /\ A_em d' = Some [a_em] /\
      D_ex d' = Some [d_ex] /\ A_ex d' = Some [a_ex] /\
      length d_em = length ph /\ length a_em = length ph /\
      length d_ex = length ph /\ length a_ex = length ph /\
      Np.sum d_em + Np.sum a_em = Np.size ph.
Proof.
  eexists. split; [reflexivity|].
  apply (usalex_outputs_aligned d_sample _ true). reflexivity.
Defined.

(** C10. When the two configured detector ids differ, the photons that
    survive the detector filter satisfy exactly one of the two emission
    masks each, so the two emission-partition assertions hold and
    [usalex_apply_period] never stops on either of them. *)
Theorem emission_assertions_hold (d : Data) :
  (det_donor_accept d).1 <> (det_donor_accept d).2 ->
  (forall ph dm am,
     emission_masks d = Ok (ph, dm, am) ->
     length dm = length ph /\ length am = length ph /\
     exactly_one dm am /\ emission_checks dm am = Ok tt) /\
  (forall del,
     usalex_apply_period d del <> Raise (AssertionError EmissionExhaustive) /\
     usalex_apply_period d del <> Raise (AssertionError EmissionExclusive)).
Proof.
  intros Hne. split.
  - intros ph dm am Hm.
    destruct (emission_masks_lengths _ _ _ _ Hm) as [Hdm Ham].
    pose proof (emission_masks_partition _ _ _ _ Hne Hm) as Hx.
    auto using exactly_one_checks.
  - intros del.
    destruct (emission_masks d) as [[[ph dm] am]|e] eqn:Hm.
    + pose proof (emission_masks_partition _ _ _ _ Hne Hm) as Hx.
      rewrite (usalex_run d del ph dm am Hm Hx).
      destruct (Np.any _); split; discriminate.
    + unfold usalex_apply_period. rewrite Hm. simpl.
      apply emission_masks_Raise in Hm as [-> | ->]; split; discriminate.
Qed.

Lemma emission_assertions_hold_witness :
  (det_donor_accept d_sample).1 <> (det_donor_accept d_sample).2 /\
  emission_masks d_sample
    = Ok ([3000; 1000; 700; 5000],
          [true; false; false; true], [false; true; true; false]) /\
  exactly_one [true; false; false; true] [false; true; true; false] /\
  usalex_apply_period d_sample true
    <> Raise (AssertionError EmissionExhaustive).
Proof.
  assert (Hne : (det_donor_accept d_sample).1 <> (det_donor_accept d_sample).2)
    by (simpl; lia).
  destruct (emission_assertions_hold d_sample Hne) as [Hmasks Hrun].
  split; [exact Hne|]. split; [reflexivity|]. split.
  - apply (Hmasks [3000; 1000; 700; 5000]
             [true; false; false; true] [false; true; true; false]).
    reflexivity.
  - apply (Hrun true).
Defined.

(** C4, as stated, fails when both detectors carry the same id: the run
    then stops on the emission-exclusivity assertion (line 109), whether
    or not a surviving photon lies in both windows. With disjoint windows
    the run aborts although no photon is in both; with identical windows
    a surviving photon is in both, yet the overlap assertion is not the
    one that fires. *)
Lemma overlap_fault_counterexample :
  (aborts (usalex_apply_period d_same_id_disjoint true) /\
   ~ overlap_photon d_same_id_disjoint) /\
  (overlap_photon d_same_id_overlap /\
   usalex_apply_period d_same_id_overlap true
     = Raise (AssertionError EmissionExclusive) /\
   usalex_apply_period d_same_id_overlap true
     <> Raise (AssertionError ExcitationExclusive)).
Proof.
  split; [split | split; [| split]].
  - exists EmissionExclusive. reflexivity.
  - intros (ph & dm & am & t & Hm & Hin & _ & HA).
    vm_compute in Hm. inversion Hm; subst ph dm am.
    apply list_elem_of_singleton in Hin as ->.
    vm_compute in HA. discriminate.
  - exists [100], [true], [true], 100.
    split; [reflexivity|]. split; [apply list_elem_of_singleton; reflexivity|].
    split; reflexivity.
  - reflexivity.
  - vm_compute. discriminate.
Qed.

(** C4, amended. Once the detector filter has succeeded and the two
    emission-partition assertions have passed, [usalex_apply_period]
    stops on the overlap assertion exactly when some surviving photon is
    classified inside both windows; it can stop on nothing else, and when
    no surviving photon is in both windows it returns its result: an
    assertion failure is never caught or repaired. *)
Theorem overlap_fault_iff (d : Data) (del : bool) ph dm am :
  emission_masks d = Ok (ph, dm, am) ->
  emission_checks dm am = Ok tt ->
  (usalex_apply_period d del = Raise (AssertionError ExcitationExclusive)
     <-> exists t, t ∈ ph /\ classified d (D_ON d) t /\ classified d (A_ON d) t) /\
  (forall e, usalex_apply_period d del = Raise e ->
             e = AssertionError ExcitationExclusive) /\
  ((forall t, t ∈ ph -> ~ (classified d (D_ON d) t /\ classified d (A_ON d) t)) ->
   exists d', usalex_apply_period d del = Ok d').
Proof.
  intros Hm Hc.
  destruct (emission_masks_lengths _ _ _ _ Hm) as [Hdm Ham].
  apply checks_exactly_one in Hc; [|congruence].
  rewrite (usalex_run d del ph dm am Hm Hc).
  destruct (Np.any _) eqn:Hany.
  - apply overlap_any in Hany. split; [tauto|]. split.
    + now intros e [= <-].
    + intros Hno. destruct Hany as (t & Hin & HDA). now destruct (Hno t Hin).
  - split; [|split].
    + split; [discriminate|]. intros Hex. apply overlap_any in Hex. congruence.
    + discriminate.
    + eauto.
Qed.

Lemma overlap_fault_iff_witness :
  emission_masks d_sample
    = Ok ([3000; 1000; 700; 5000],
          [true; false; false; true], [false; true; true; false]) /\
  emission_checks [true; false; false; true] [false; true; true; false] = Ok tt /\
  (usalex_apply_period d_sample false = Raise (AssertionError ExcitationExclusive)
     <-> exists t, t ∈ [3000; 1000; 700; 5000] /\
           classified d_sample (D_ON d_sample) t /\
           classified d_sample (A_ON d_sample) t).
Proof.
  split; [reflexivity|]. split; [reflexivity|].
  apply (overlap_fault_iff d_sample false [3000; 1000; 700; 5000]
           [true; false; false; true] [false; true; true; false]);
    reflexivity.
Defined.

End LoadersFacts.

(** ** Facts about the Poisson law *)

Module PoissonFacts.
Import Poisson.
Local Open Scope R_scope.

Lemma is_isf_unique mu P k k' : is_isf mu P k -> is_isf mu P k' -> k = k'.
Proof.
  intros [Hk Hlt] [Hk' Hlt'].
  destruct (Z.lt_trichotomy k k') as [Hc|[Hc|Hc]]; [|assumption|].
  - specialize (Hlt' k Hc). lra.
  - specialize (Hlt k' Hc). lra.
Qed.

Lemma is_threshold_unique mu P k k' :
  is_threshold mu P k -> is_threshold mu P k' -> k = k'.
Proof.
  intros (H0 & Hk & Hlt) (H0' & Hk' & Hlt').
  destruct (Z.lt_trichotomy k k') as [Hc|[Hc|Hc]]; [|assumption|].
  - specialize (Hlt' k (conj H0 Hc)). lra.
  - specialize (Hlt k' (conj H0' Hc)). lra.
Qed.

(** [isf_doc] meets the documented contract. *)
Lemma isf_doc_documented : documented Samples.documented_isf.
Proof.
  intros mu P k Hk. simpl. unfold isf_doc. f_equal.
  apply (is_isf_unique (Q2R mu) (Q2R P)); [|exact Hk].
  apply epsilon_spec. now exists k.
Qed.

Lemma sf_values (mu : R) :
  sf mu 0 = 1 - exp (- mu) /\
  sf mu 1 = 1 - exp (- mu) * (1 + mu) /\
  sf mu 2 = 1 - exp (- mu) * (1 + mu + mu * mu / 2).
Proof.
  unfold sf, cdf, pmf. simpl. repeat split; field.
Qed.

(** exp(-0.6) = 0.5488..., between two rationals. *)
Lemma exp_lower : 95 / 178 <= exp (- (3 / 5)).
Proof.
  assert (H1 : 19 / 20 < exp (- (1 / 20))).
  { generalize (exp_ineq1 (- (1 / 20))). lra. }
  set (x := exp (- (1 / 20))) in *.
  assert (H3 : exp (- (3 / 5))
               = (x * x * x) * (x * x * x) * ((x * x * x) * (x * x * x))).
  { unfold x. rewrite <- !exp_plus. f_equal. lra. }
  rewrite H3.
  assert (Hx3 : 6859 / 8000 < x * x * x) by nra.
  set (y := x * x * x) in *.
  assert (Hy2 : 47045881 / 64000000 < y * y) by nra.
  set (z := y * y) in *. nra.
Qed.

Lemma exp_upper : exp (- (3 / 5)) < 19 / 32.
Proof.
  assert (H1 : 13 / 10 < exp (3 / 10)).
  { generalize (exp_ineq1 (3 / 10)). lra. }
  set (x := exp (3 / 10)) in *.
  assert (H2 : exp (- (3 / 5)) * (x * x) = 1).
  { unfold x. rewrite <- !exp_plus.
    replace (- (3 / 5) + (3 / 10 + 3 / 10)) with 0 by lra. apply exp_0. }
  assert (Hp : 0 < exp (- (3 / 5))) by apply exp_pos.
  set (e := exp (- (3 / 5))) in *.
  assert (Hxx : 169 / 100 < x * x) by nra.
  set (w := x * x) in *. nra.
Qed.

(** At mean 0.6 and level 0.05 the inverse survival function is 2:
    P(X > 2) = 0.023 and P(X > 1) = 0.122. *)
Lemma isf_at_sample : is_isf (3 / 5) (1 / 20) 2.
Proof.
  destruct (sf_values (3 / 5)) as (H0 & H1 & H2).
  pose proof exp_lower. pose proof exp_upper.
  split.
  - rewrite H2. lra.
  - intros j Hj.
    assert (Hc : (j < 0 \/ j = 0 \/ j = 1)%Z) by lia.
    destruct Hc as [Hc|[->| ->]].
    + unfold sf. destruct (Z.ltb_spec j 0); [lra | lia].
    + rewrite H0. lra.
    + rewrite H1. lra.
Qed.

(** At the same mean and level the smallest count k with
    P(X >= k) <= P is 3: P(X >= 3) = 0.023 and P(X >= 2) = 0.122. *)
Lemma threshold_at_sample : is_threshold (3 / 5) (1 / 20) 3.
Proof.
  destruct (sf_values (3 / 5)) as (H0 & H1 & H2).
  pose proof exp_lower. pose proof exp_upper.
  split; [lia|]. split.
  - unfold tail. change (3 - 1)%Z with 2%Z. rewrite H2. lra.
  - intros j Hj. unfold tail.
    assert (Hc : (j = 0 \/ j = 1 \/ j = 2)%Z) by lia.
    destruct Hc as [->|[->| ->]].
    + unfold sf. simpl. lra.
    + change (1 - 1)%Z with 0%Z. rewrite H0. lra.
    + change (2 - 1)%Z with 1%Z. rewrite H1. lra.
Qed.

Lemma tail_at_sample : 1 / 20 < tail (3 / 5) 2.
Proof.
  destruct threshold_at_sample as (_ & _ & Hlt). apply Hlt. lia.
Qed.

End PoissonFacts.

Module SelectFacts.
Import SelectBursts NpFacts.

Lemma item_Ok {B} (xs : list B) i x : item xs i = Ok x <-> xs !! i = Some x.
Proof. unfold item. destruct (xs !! i); split; congruence. Qed.

Lemma item_lookup {B} (xs : list B) i x : xs !! i = Some x -> item xs i = Ok x.
Proof. apply item_Ok. Qed.

(** The predicates on the sample channel; its burst sizes are 7, 10, 11. *)
Example topN_nda_samples :
  topN_nda Samples.three_bursts 0 1 1%Q None = Ok [false; false; true] /\
  topN_nda Samples.three_bursts 0 2 1%Q None = Ok [false; true; true] /\
  topN_nda Samples.three_bursts 0 5 1%Q None = Ok [true; true; true].
Proof. repeat split. Qed.

Example period_samples :
  period Samples.three_bursts 0 0 None = Ok [true; true; true] /\
  period Samples.three_bursts 0 1 None = Ok [false; false; true] /\
  period Samples.three_bursts 0 0 (Some 0) = Ok [true; true; false].
Proof. repeat split. Qed.

Example gap_samples :
  single Samples.three_bursts 0 1%Q = Ok [false; false; false] /\
  attached Samples.three_bursts 0 = Ok [true; true; false] /\
  attached2 Samples.three_bursts 0 = Ok [false; true; true].
Proof. repeat split. Qed.

Example width_sample :
  width Samples.three_bursts 0 1000%Q 1500%Q = Ok [true; false; true].
Proof. reflexivity. Qed.

Example nda_samples :
  nda Samples.three_bursts 0 (Scalar 8%Q) (Scalar 1000%Q) 1%Q None false
    = Ok [false; true; true] /\
  nda Samples.three_bursts 0 (PerChannel [8%Q]) (Scalar 1000%Q) 1%Q None false
    = Ok [false; true; true] /\
  nda Samples.three_bursts 0 (PerChannel [8; 9]%Q) (Scalar 1000%Q) 1%Q None false
    = Raise ValueError.
Proof. repeat split. Qed.

Section Sorting.
Context {A : Type} `{Float A}.

Lemma insert_sorted_perm (x : A * nat) l : insert_sorted x l ≡ₚ x :: l.
Proof.
  induction l as [|y l IH]; simpl; [reflexivity|].
  destruct (flt y.1 x.1); [|reflexivity].
  rewrite IH. apply Permutation_swap.
Qed.

Lemma argsort_perm (xs : list A) : argsort xs ≡ₚ seq 0 (length xs).
Proof.
  unfold argsort.
  assert (Hs : forall l : list (A * nat), fold_right insert_sorted [] l ≡ₚ l).
  { induction l as [|p l IH]; simpl; [reflexivity|].
    now rewrite insert_sorted_perm, IH. }
  rewrite Hs. change (map snd ?l) with (l.*2).
  rewrite snd_zip; [reflexivity | rewrite length_seq; lia].
Qed.

Lemma argsort_elem (xs : list A) i : i ∈ argsort xs <-> (i < length xs)%nat.
Proof. rewrite argsort_perm, elem_of_seq. lia. Qed.

End Sorting.

Lemma set_true_length mask idx : length (set_true mask idx) = length mask.
Proof.
  unfold set_true. revert mask. induction idx as [|i idx IH]; intros mask; simpl;
    [reflexivity|]. now rewrite IH, length_insert.
Qed.

Lemma set_true_keeps mask idx i :
  mask !! i = Some true -> set_true mask idx !! i = Some true.
Proof.
  unfold set_true. revert mask. induction idx as [|j idx IH]; intros mask Hi; simpl;
    [exact Hi|]. apply IH. destruct (decide (j = i)) as [->|Hne].
  - apply list_lookup_insert_eq. now apply lookup_lt_Some in Hi.
  - now rewrite list_lookup_insert_ne.
Qed.

Lemma set_true_elem mask idx i :
  i ∈ idx -> (i < length mask)%nat -> set_true mask idx !! i = Some true.
Proof.
  revert mask. induction idx as [|j idx IH]; intros mask Hin Hlt.
  - now apply elem_of_nil in Hin.
  - apply elem_of_cons in Hin as [->|Hin].
    + apply (set_true_keeps (<[j:=true]> mask) idx j).
      now apply list_lookup_insert_eq.
    + apply (IH (<[j:=true]> mask) Hin). now rewrite length_insert.
Qed.

Lemma set_true_all mask idx :
  (forall i, (i < length mask)%nat -> i ∈ idx) ->
  set_true mask idx = replicate (length mask) true.
Proof.
  intros Hall. apply list_eq. intros i.
  destruct (decide (i < length mask)%nat) as [Hlt|Hge].
  - rewrite set_true_elem by auto. symmetry. now apply lookup_replicate_2.
  - rewrite !lookup_ge_None_2; [reflexivity | |].
    + rewrite length_replicate. lia.
    + rewrite set_true_length. lia.
Qed.

Section Size.
Context {A : Type} `{Float A}.

Lemma burst_size_aligned (d : Data.t A) ich gamma gamma1 x y :
  Data.nd d !! ich = Some x -> Data.na d !! ich = Some y ->
  length x = length y ->
  exists bs, burst_size d ich gamma gamma1 = Ok bs /\ length bs = length x.
Proof.
  intros Hx Hy Hlen. unfold burst_size.
  rewrite (item_lookup _ _ _ Hx), (item_lookup _ _ _ Hy).
  destruct gamma1 as [g1|]; simpl;
    rewrite broadcast2_same by now rewrite length_map.
  - eexists. split; [reflexivity|].
    rewrite length_zip_with, length_map. lia.
  - eexists. split; [reflexivity|].
    rewrite length_zip_with, length_map. lia.
Qed.

(** [xs[-0:]] is [xs[0:]], the whole array. *)
Lemma slice_from_zero {B} (xs : list B) : slice_from xs (- 0) = xs.
Proof. unfold slice_from. simpl. now rewrite Z.min_l by lia. Qed.

Lemma topN_nda_zero (d : Data.t A) ich gamma gamma1 bs :
  burst_size d ich gamma gamma1 = Ok bs ->
  topN_nda d ich 0 gamma gamma1 = Ok (replicate (length bs) true).
Proof.
  intros Hbs. unfold topN_nda. rewrite Hbs. simpl. f_equal.
  rewrite slice_from_zero.
  rewrite set_true_all; rewrite length_replicate; [reflexivity|].
  intros i Hi. now apply argsort_elem.
Qed.

End Size.

Lemma Q_fle_trans (x y z : Q) :
  fle x y = true -> fle y z = true -> fle x z = true.
Proof.
  simpl. rewrite !Qle_bool_iff. apply Qle_trans.
Qed.

#[export] Instance Q_FloatOrder : FloatOrder Q := {| fle_trans := Q_fle_trans |}.

Lemma sum_map_mono {B} (f g : B -> bool) (l : list B) :
  (forall x, f x = true -> g x = true) ->
  Np.sum (map f l) <= Np.sum (map g l).
Proof.
  intros Hfg. induction l as [|x l IH]; simpl; [lia|].
  specialize (Hfg x). destruct (f x), (g x); lia.
Qed.

Section Nda.
Context {A : Type} `{Float A}.

Lemma as_number_error (e e' : error) (th : Param A) v :
  as_number e th = Ok v -> as_number e' th = Ok v.
Proof. destruct th as [w|[|w [|? ?]]]; simpl; congruence. Qed.

Lemma cmp_th_number (f : A -> A -> bool) xs e th v :
  as_number e th = Ok v -> cmp_th f xs th = Ok (map (fun x => f x v) xs).
Proof.
  destruct th as [w|[|w [|? ?]]]; simpl; try discriminate.
  - now intros [= ->].
  - intros [= ->]. unfold Np.broadcast2.
    destruct xs as [|x [|x' xs]]; reflexivity.
Qed.

Lemma threshold_Ok e (d : Data.t A) ich th v :
  threshold e d ich th = Ok v <->
  exists th', per_channel d ich th = Ok th' /\ as_number e th' = Ok v.
Proof.
  unfold threshold. split.
  - intros Hb. apply bind_Ok in Hb. exact Hb.
  - intros (th' & -> & Hn). exact Hn.
Qed.

Lemma nda_value (d : Data.t A) ich th1 th2 gamma gamma1 add_naa bs a b :
  nda_size d ich gamma gamma1 add_naa = Ok bs ->
  threshold TypeError d ich th1 = Ok a ->
  threshold ValueError d ich th2 = Ok b ->
  (exists z, fmt_d a = Ok z) ->
  (flt b (of_Z 1000) = false \/ exists z, fmt_d b = Ok z) ->
  nda d ich th1 th2 gamma gamma1 add_naa
    = Ok (map (fun x => fle a x && fle x b) bs).
Proof.
  intros Hbs H1 H2 [za Hza] Hfb.
  apply threshold_Ok in H1 as (t1 & Hp1 & Hn1).
  apply threshold_Ok in H2 as (t2 & Hp2 & Hn2).
  unfold nda. rewrite Hbs. simpl. rewrite Hp1, Hp2. simpl.
  rewrite (cmp_th_number _ bs _ _ _ Hn1), (cmp_th_number _ bs _ _ _ Hn2).
  simpl. unfold Np.band. rewrite broadcast2_same by now rewrite !length_map.
  simpl. rewrite Hn1. simpl. rewrite Hza. simpl. rewrite Hn2. simpl.
  rewrite LoadersFacts.zip_with_map_same.
  destruct (flt b (of_Z 1000)); [|reflexivity].
  destruct Hfb as [Hf|[zb Hzb]]; [discriminate|].
  now rewrite Hzb.
Qed.

Lemma nda_Ok (d : Data.t A) ich th1 th2 gamma gamma1 add_naa m :
  nda d ich th1 th2 gamma gamma1 add_naa = Ok m ->
  exists bs a b,
    nda_size d ich gamma gamma1 add_naa = Ok bs /\
    threshold TypeError d ich th1 = Ok a /\
    threshold ValueError d ich th2 = Ok b /\
    (exists z, fmt_d a = Ok z) /\
    (flt b (of_Z 1000) = false \/ exists z, fmt_d b = Ok z) /\
    m = map (fun x => fle a x && fle x b) bs.
Proof.
  intros Hrun. pose proof Hrun as Hm. unfold nda in Hm.
  apply bind_Ok in Hm as (bs & Hbs & Hm).
  apply bind_Ok in Hm as (t1 & Hp1 & Hm).
  apply bind_Ok in Hm as (t2 & Hp2 & Hm).
  apply bind_Ok in Hm as (m1 & _ & Hm).
  apply bind_Ok in Hm as (m2 & _ & Hm).
  apply bind_Ok in Hm as (m3 & _ & Hm).
  apply bind_Ok in Hm as (a & Hn1 & Hm).
  apply bind_Ok in Hm as (za & Hza & Hm).
  apply bind_Ok in Hm as (b & Hn2 & Hm).
  apply bind_Ok in Hm as (zb & Hzb & _).
  assert (H1 : threshold TypeError d ich th1 = Ok a)
    by (apply threshold_Ok; eauto).
  assert (H2 : threshold ValueError d ich th2 = Ok b)
    by (apply threshold_Ok; eauto).
  assert (Hfa : exists z, fmt_d a = Ok z) by eauto.
  assert (Hfb : flt b (of_Z 1000) = false \/ exists z, fmt_d b = Ok z)
    by (destruct (flt b (of_Z 1000)); [right; eauto | now left]).
  exists bs, a, b. repeat split; try assumption.
  rewrite (nda_value d ich th1 th2 gamma gamma1 add_naa bs a b
             Hbs H1 H2 Hfa Hfb) in Hrun.
  congruence.
Qed.

(** A threshold that [%d] refuses makes [nda] raise what [%d] raises,
    after the mask has been computed. *)
Lemma nda_label_raises (d : Data.t A) ich th1 th2 gamma gamma1 add_naa bs a b e :
  nda_size d ich gamma gamma1 add_naa = Ok bs ->
  threshold TypeError d ich th1 = Ok a ->
  threshold ValueError d ich th2 = Ok b ->
  (fmt_d a = Raise e \/
   (exists z, fmt_d a = Ok z) /\ flt b (of_Z 1000) = true /\ fmt_d b = Raise e) ->
  nda d ich th1 th2 gamma gamma1 add_naa = Raise e.
Proof.
  intros Hbs H1 H2 Hf.
  apply threshold_Ok in H1 as (t1 & Hp1 & Hn1).
  apply threshold_Ok in H2 as (t2 & Hp2 & Hn2).
  unfold nda. rewrite Hbs. simpl. rewrite Hp1, Hp2. simpl.
  rewrite (cmp_th_number _ bs _ _ _ Hn1), (cmp_th_number _ bs _ _ _ Hn2).
  simpl. unfold Np.band. rewrite broadcast2_same by now rewrite !length_map.
  simpl. rewrite Hn1. simpl.
  destruct Hf as [Hf|([z Hz] & Hlt & Hf)].
  - now rewrite Hf.
  - rewrite Hz. simpl. rewrite Hn2. simpl. now rewrite Hlt, Hf.
Qed.

Lemma threshold_error e e' (d : Data.t A) ich th v :
  threshold e d ich th = Ok v -> threshold e' d ich th = Ok v.
Proof.
  rewrite !threshold_Ok. intros (th' & Hp & Hn).
  eauto using as_number_error.
Qed.

End Nda.

(** C7. For a fixed dataset, channel and gamma settings, the number of
    true entries of the mask of [nda] does not increase when [th1]
    increases with [th2] fixed, and does not decrease when [th2]
    increases with [th1] fixed. The call with the changed threshold
    returns a mask exactly when the label can be written for it: [%d]
    refuses an infinity and a NaN, and the call raises for them. *)
Theorem nda_count_monotone {A : Type} `{FloatOrder A}
    (d : Data.t A) (ich : nat) (th1 th2 : Param A)
    (gamma : A) (gamma1 : option A) (add_naa : bool) (m : list bool) :
  nda d ich th1 th2 gamma gamma1 add_naa = Ok m ->
  (forall th1', threshold_le d ich th1 th1' ->
     (forall m', nda d ich th1' th2 gamma gamma1 add_naa = Ok m' ->
                 length m' = length m /\ Np.sum m' <= Np.sum m) /\
     ((exists m', nda d ich th1' th2 gamma gamma1 add_naa = Ok m') <->
      formats_th1 d ich th1')) /\
  (forall th2', threshold_le d ich th2 th2' ->
     (forall m', nda d ich th1 th2' gamma gamma1 add_naa = Ok m' ->
                 length m' = length m /\ Np.sum m <= Np.sum m') /\
     ((exists m', nda d ich th1 th2' gamma gamma1 add_naa = Ok m') <->
      formats_th2 d ich th2')).
Proof.
  intros Hm.
  apply nda_Ok in Hm as (bs & a & b & Hbs & H1 & H2 & Hfa & Hfb & ->).
  split.
  - intros th1' (a0 & a' & Ha0 & Ha' & Hle).
    rewrite H1 in Ha0. injection Ha0 as <-. split.
    + intros m' Hm'.
      apply nda_Ok in Hm' as (bs' & a1 & b1 & Hbs' & H1' & H2' & _ & _ & ->).
      rewrite Hbs in Hbs'. rewrite Ha' in H1'. rewrite H2 in H2'.
      injection Hbs' as <-. injection H1' as <-. injection H2' as <-.
      split; [now rewrite !length_map|].
      apply sum_map_mono. intros x Hx.
      apply andb_true_iff in Hx as [Hx1 Hx2]. apply andb_true_iff.
      split; [eapply fle_trans; eauto | assumption].
    + split.
      * intros [m' Hm'].
        apply nda_Ok in Hm' as (_ & a1 & _ & _ & H1' & _ & [z Hz] & _).
        now exists a1, z.
      * intros (a1 & z & Ha1 & Hz). rewrite Ha' in Ha1. injection Ha1 as <-.
        eexists.
        apply (nda_value d ich th1' th2 gamma gamma1 add_naa bs a' b); eauto.
  - intros th2' (b0 & b' & Hb0 & Hb' & Hle).
    rewrite (threshold_error _ ValueError _ _ _ _ Hb0) in H2.
    injection H2 as <-.
    pose proof (threshold_error _ ValueError _ _ _ _ Hb') as Hb''.
    split.
    + intros m' Hm'.
      apply nda_Ok in Hm' as (bs' & a1 & b1 & Hbs' & H1' & H2' & _ & _ & ->).
      rewrite Hbs in Hbs'. rewrite H1 in H1'. rewrite Hb'' in H2'.
      injection Hbs' as <-. injection H1' as <-. injection H2' as <-.
      split; [now rewrite !length_map|].
      apply sum_map_mono. intros x Hx.
      apply andb_true_iff in Hx as [Hx1 Hx2]. apply andb_true_iff.
      split; [assumption | eapply fle_trans; eauto].
    + split.
      * intros [m' Hm'].
        apply nda_Ok in Hm' as (_ & _ & b1 & _ & _ & H2' & _ & Hf & _).
        now exists b1.
      * intros (b1 & Hb1 & Hf). rewrite Hb'' in Hb1. injection Hb1 as <-.
        eexists.
        apply (nda_value d ich th1 th2' gamma gamma1 add_naa bs a b'); eauto.
Qed.

Lemma nda_count_monotone_witness :
  nda Samples.three_bursts 0 (Scalar 6%Q) (Scalar 10%Q) 1%Q None false
    = Ok [true; true; false] /\
  threshold_le Samples.three_bursts 0 (Scalar 6%Q) (Scalar 8%Q) /\
  formats_th1 Samples.three_bursts 0 (Scalar 8%Q) /\
  (forall m', nda Samples.three_bursts 0 (Scalar 8%Q) (Scalar 10%Q) 1%Q None false
                = Ok m' -> length m' = 3%nat /\ Np.sum m' <= 2) /\
  exists m', nda Samples.three_bursts 0 (Scalar 8%Q) (Scalar 10%Q) 1%Q None false
               = Ok m'.
Proof.
  assert (Hle : threshold_le Samples.three_bursts 0 (Scalar 6%Q) (Scalar 8%Q))
    by (exists 6%Q, 8%Q; repeat split).
  assert (Hf : formats_th1 Samples.three_bursts 0 (Scalar 8%Q))
    by (exists 8%Q, 8; split; reflexivity).
  assert (Hrun : nda Samples.three_bursts 0 (Scalar 6%Q) (Scalar 10%Q)
                   1%Q None false = Ok [true; true; false])
    by reflexivity.
  destruct (nda_count_monotone Samples.three_bursts 0 (Scalar 6%Q) (Scalar 10%Q)
              1%Q None false [true; true; false] Hrun) as [Hth1 _].
  destruct (Hth1 (Scalar 8%Q) Hle) as [Hmono Hret].
  split; [exact Hrun|]. split; [exact Hle|]. split; [exact Hf|].
  split; [exact Hmono | exact (proj2 Hret Hf)].
Defined.

(** C9. For every channel, [topN_nda] called with N = 0 selects every
    burst: the slice [index_sorted[-0:]] is the whole array of sorted
    indices. On a channel that is not empty the mask is therefore not the
    all-false mask. *)
Theorem topN_nda_zero_selects_all {A : Type} `{Float A}
    (d : Data.t A) (ich : nat) (gamma : A) (gamma1 : option A) (x y : list A) :
  Data.nd d !! ich = Some x -> Data.na d !! ich = Some y ->
  length x = length y -> x <> [] ->
  topN_nda d ich 0 gamma gamma1 = Ok (replicate (length x) true) /\
  topN_nda d ich 0 gamma gamma1 <> Ok (replicate (length x) false).
Proof.
  intros Hx Hy Hlen Hne.
  destruct (burst_size_aligned d ich gamma gamma1 x y Hx Hy Hlen)
    as (bs & Hbs & Hl).
  rewrite (topN_nda_zero d ich gamma gamma1 bs Hbs), Hl. split; [reflexivity|].
  destruct x; [congruence | discriminate].
Qed.

Lemma topN_nda_zero_selects_all_witness :
  Data.nd Samples.three_bursts !! 0%nat = Some [5; 3; 10]%Q /\
  Data.na Samples.three_bursts !! 0%nat = Some [2; 7; 1]%Q /\
  topN_nda Samples.three_bursts 0 0 1%Q None = Ok [true; true; true].
Proof.
  split; [reflexivity|]. split; [reflexivity|].
  apply (topN_nda_zero_selects_all Samples.three_bursts 0 1%Q None
           [5; 3; 10]%Q [2; 7; 1]%Q); try reflexivity; discriminate.
Defined.

Section Single.
Context {A : Type} `{Float A}.

Lemma gaps_lookup (mb : list Burst) (j : nat) (g : Z) :
  zip_with Z.sub (tail_ (b_start mb)) (init_ (b_end mb)) !! j = Some g <->
  exists c s, mb !! j = Some c /\ mb !! (1 + j)%nat = Some s /\ g = start s - end_ c.
Proof.
  unfold tail_, init_, b_start, b_end.
  rewrite lookup_zip_with_Some. setoid_rewrite lookup_drop.
  setoid_rewrite lookup_take_Some. setoid_rewrite list_lookup_fmap_Some.
  rewrite length_map. split.
  - intros (x & y & -> & (s & -> & Hs) & ((c & -> & Hc) & _)).
    exists c, s. auto.
  - intros (c & s & Hc & Hs & ->).
    exists (start s), (end_ c). split; [reflexivity|]. split; [eauto|].
    split; [eauto|]. apply lookup_lt_Some in Hs. lia.
Qed.

Lemma gaps_length (mb : list Burst) :
  length (tail_ (b_start mb)) = length (init_ (b_end mb)).
Proof.
  unfold tail_, init_, b_start, b_end.
  rewrite length_drop, length_take, !length_map. lia.
Qed.

Lemma gap_mask_lookup (f : Z -> bool) (mb : list Burst) (j : nat) :
  map f (zip_with Z.sub (tail_ (b_start mb)) (init_ (b_end mb))) !! j = Some true
  <-> exists c s, mb !! j = Some c /\ mb !! (1 + j)%nat = Some s /\
                  f (start s - end_ c) = true.
Proof.
  rewrite list_lookup_fmap_Some. setoid_rewrite gaps_lookup. split.
  - intros (g & Hg & c & s & Hc & Hs & ->). eauto.
  - intros (c & s & Hc & Hs & Hf). exists (start s - end_ c). eauto 6.
Qed.

Lemma sides_lookup (gm : list bool) (i : nat) :
  zip_with andb (gm ++ [false]) ([false] ++ gm) !! i = Some true <->
  (1 <= i)%nat /\ gm !! (i - 1)%nat = Some true /\ gm !! i = Some true.
Proof.
  rewrite lookup_zip_with_Some. simpl. split.
  - intros (x & y & Hxy & Hx & Hy).
    symmetry in Hxy. apply andb_true_iff in Hxy as [-> ->].
    apply lookup_snoc_Some in Hx as [[_ Hx]|[_ ?]]; [|discriminate].
    apply lookup_cons_Some in Hy as [[_ ?]|[Hi Hy]]; [discriminate|].
    auto.
  - intros (Hi & Hp & Hc). exists true, true. split; [reflexivity|]. split.
    + apply lookup_snoc_Some. left. split; [|exact Hc].
      now apply lookup_lt_Some in Hc.
    + apply lookup_cons_Some. right. auto.
Qed.

Lemma single_value (d : Data.t A) ich th mb :
  feqb (Data.clk_p d) (of_Z 0) = false ->
  Data.mburst d !! ich = Some mb ->
  let thr := fdiv (fmul th (lit (1 # 1000))) (Data.clk_p d) in
  let gm := map (fun g => fle thr (of_Z g))
                (zip_with Z.sub (tail_ (b_start mb)) (init_ (b_end mb))) in
  single d ich th = Ok (zip_with andb (gm ++ [false]) ([false] ++ gm)).
Proof.
  intros Hclk Hmb thr gm. unfold single, ms_to_ticks, pydiv.
  rewrite Hclk. simpl. rewrite (item_lookup _ _ _ Hmb). simpl.
  rewrite broadcast2_same by apply gaps_length. simpl.
  unfold Np.band. rewrite broadcast2_same; [reflexivity|].
  rewrite !length_app. simpl. lia.
Qed.

End Single.

(** C8, as stated, fails when a gap equals the threshold. With a
    threshold of 0 ms and three bursts that touch (both gaps are 0 ticks),
    [single] selects the middle burst, although neither gap exceeds the
    threshold. *)
Lemma single_strict_counterexample :
  exists (thr : Q) (p c s : Burst),
    Data.mburst Samples.three_bursts !! 0%nat = Some [p; c; s] /\
    ms_to_ticks 0%Q (Data.clk_p Samples.three_bursts) = Ok thr /\
    single Samples.three_bursts 0 0%Q = Ok [false; true; false] /\
    flt thr (of_Z (start c - end_ p)) = false /\
    flt thr (of_Z (start s - end_ c)) = false.
Proof.
  do 4 eexists. split; [reflexivity|]. split; [reflexivity|].
  split; [reflexivity|]. split; reflexivity.
Qed.

(** C8, amended. For a channel with n bursts and a threshold [th] in
    milliseconds, converted to ticks with the clock period of the dataset,
    the mask of [single] is true at index i exactly when burst i has a
    burst before it and a burst after it (0 < i < n-1) and both gaps,
    [start[i] - end[i-1]] and [start[i+1] - end[i]], are at least the
    converted threshold; the first and the last burst are never
    selected. *)
Theorem single_spec {A : Type} `{Float A}
    (d : Data.t A) (ich : nat) (th : A) (mb : list Burst) :
  feqb (Data.clk_p d) (of_Z 0) = false ->
  Data.mburst d !! ich = Some mb ->
  let thr := fdiv (fmul th (lit (1 # 1000))) (Data.clk_p d) in
  exists mask,
    single d ich th = Ok mask /\
    (mb <> [] -> length mask = length mb) /\
    (forall i : nat,
       mask !! i = Some true <->
       exists p c s,
         (0 < i < length mb - 1)%nat /\
         mb !! (i - 1)%nat = Some p /\ mb !! i = Some c /\ mb !! (1 + i)%nat = Some s /\
         fle thr (of_Z (start c - end_ p)) = true /\
         fle thr (of_Z (start s - end_ c)) = true) /\
    mask !! 0%nat <> Some true /\
    mask !! (length mb - 1)%nat <> Some true.
Proof.
  intros Hclk Hmb thr. eexists. split; [apply (single_value d ich th mb Hclk Hmb)|].
  fold thr.
  set (gm := map (fun g => fle thr (of_Z g))
                 (zip_with Z.sub (tail_ (b_start mb)) (init_ (b_end mb)))).
  assert (Hspec : forall i : nat,
    zip_with andb (gm ++ [false]) ([false] ++ gm) !! i = Some true <->
    exists p c s,
      (0 < i < length mb - 1)%nat /\
      mb !! (i - 1)%nat = Some p /\ mb !! i = Some c /\ mb !! (1 + i)%nat = Some s /\
      fle thr (of_Z (start c - end_ p)) = true /\
      fle thr (of_Z (start s - end_ c)) = true).
  { intros i. rewrite sides_lookup. unfold gm.
    rewrite !(gap_mask_lookup (fun g => fle thr (of_Z g))). split.
    - intros (Hi & (p & c & Hp & Hc & Hpc) & (c' & s & Hc' & Hs & Hcs)).
      replace (1 + (i - 1))%nat with i in Hc by lia.
      rewrite Hc in Hc'. injection Hc' as <-.
      pose proof (lookup_lt_Some _ _ _ Hs) as Hlt.
      exists p, c, s. repeat split; auto; lia.
    - intros (p & c & s & Hi & Hp & Hc & Hs & Hpc & Hcs).
      split; [lia|]. split.
      + exists p, c. replace (1 + (i - 1))%nat with i by lia. auto.
      + exists c, s. auto. }
  split; [|split; [exact Hspec|split]].
  - intros Hne. rewrite length_zip_with, !length_app. simpl.
    unfold gm. rewrite length_map, length_zip_with, <- gaps_length.
    unfold tail_, b_start. rewrite length_drop, length_map.
    destruct mb; [congruence | simpl; lia].
  - intros H0. apply Hspec in H0 as (? & ? & ? & ? & _). lia.
  - intros Hl. apply Hspec in Hl as (? & ? & ? & ? & _). lia.
Qed.

Lemma single_spec_witness :
  feqb (Data.clk_p Samples.three_bursts) (of_Z 0) = false /\
  Data.mburst Samples.three_bursts !! 0%nat
    = Some [mkBurst 0 8 8; mkBurst 8 16 24; mkBurst 24 8 32] /\
  exists mask,
    single Samples.three_bursts 0 (1 # 10)%Q = Ok mask /\
    mask !! 0%nat <> Some true.
Proof.
  assert (Hclk : feqb (Data.clk_p Samples.three_bursts) (of_Z 0) = false)
    by reflexivity.
  assert (Hmb : Data.mburst Samples.three_bursts !! 0%nat
                = Some [mkBurst 0 8 8; mkBurst 8 16 24; mkBurst 24 8 32])
    by reflexivity.
  split; [exact Hclk|]. split; [exact Hmb|].
  destruct (single_spec Samples.three_bursts 0 (1 # 10)%Q _ Hclk Hmb)
    as (mask & Hrun & _ & _ & H0 & _).
  exists mask. split; assumption.
Defined.

Section Background.
Context {A : Type} `{Float A}.

Lemma item_Z_in_range (rates : list A) (b : Z) :
  - Z.of_nat (length rates) <= b < Z.of_nat (length rates) ->
  exists r, item_Z rates b = Ok r.
Proof.
  intros Hb. unfold item_Z.
  destruct (Z.leb_spec 0 b), (Z.ltb_spec b (Z.of_nat (length rates))); simpl;
    try lia.
  - destruct (lookup_lt_is_Some_2 rates (Z.to_nat b)) as [r Hr]; [lia|].
    exists r. now apply item_lookup.
  - destruct (Z.leb_spec (- Z.of_nat (length rates)) b), (Z.ltb_spec b 0);
      simpl; try lia.
    destruct (lookup_lt_is_Some_2 rates (Z.to_nat (Z.of_nat (length rates) + b)))
      as [r Hr]; [lia|].
    exists r. now apply item_lookup.
Qed.

Lemma take_items_in_range (rates : list A) (bp : list Z) :
  Forall (fun b => - Z.of_nat (length rates) <= b < Z.of_nat (length rates)) bp ->
  exists r, take_items rates bp = Ok r /\
            Forall2 (fun b v => item_Z rates b = Ok v) bp r.
Proof.
  induction 1 as [|b bp Hb _ (r & Hr & Hall)]; simpl.
  - exists []. split; [reflexivity | constructor].
  - destruct (item_Z_in_range rates b Hb) as (v & Hv).
    rewrite Hv, Hr. simpl. exists (v :: r). split; [reflexivity|].
    now constructor.
Qed.

Lemma bg_burst_value (bg : list (list A)) (d : Data.t A) ich n :
  binned bg d ich n ->
  exists l, bg_burst bg d ich = Ok l /\ length l = n /\
            forall i, (i < n)%nat ->
              exists e, expected_bg bg d ich i = Ok e /\ l !! i = Some e.
Proof.
  intros (rates & bp & mb & Hrates & Hbp & Hmb & Hlb & Hlm & Hin).
  destruct (take_items_in_range rates bp Hin) as (r & Hr & Hall).
  pose proof (Forall2_length _ _ _ Hall) as Hlr.
  unfold bg_burst, expected_bg.
  rewrite (item_lookup _ _ _ Hrates), (item_lookup _ _ _ Hbp),
          (item_lookup _ _ _ Hmb). simpl. rewrite Hr. simpl.
  rewrite broadcast2_same by (unfold b_width; rewrite length_map; lia).
  simpl. eexists. split; [reflexivity|]. split.
  - unfold b_width. rewrite length_map, length_zip_with, length_map. lia.
  - intros i Hi.
    destruct (lookup_lt_is_Some_2 bp i) as [b Hb]; [lia|].
    destruct (lookup_lt_is_Some_2 mb i) as [burst Hburst]; [lia|].
    destruct (lookup_lt_is_Some_2 r i) as [v Hv]; [lia|].
    pose proof (Forall2_lookup_lr _ _ _ _ _ _ Hall Hb Hv) as Hitem.
    rewrite (item_lookup _ _ _ Hb). simpl. rewrite Hitem. simpl.
    rewrite (item_lookup _ _ _ Hburst). simpl.
    eexists. split; [reflexivity|].
    rewrite list_lookup_fmap, lookup_zip_with, Hv. simpl.
    unfold b_width. now rewrite list_lookup_fmap, Hburst.
Qed.

(** A selector of the family: [counts[ich] test F*bg_burst]. *)
Lemma bg_selector_value (test : A -> A -> bool) (bg counts : list (list A))
    (d : Data.t A) ich n F x :
  binned bg d ich n -> counts !! ich = Some x -> length x = n ->
  exists mask,
    (b ← bg_burst bg d ich; y ← item counts ich;
     Np.broadcast2 (fun c v => test v c) y (map (fmul F) b)) = Ok mask /\
    length mask = n /\ keeps test bg counts d ich F mask.
Proof.
  intros Hb Hx Hlen.
  destruct (bg_burst_value bg d ich n Hb) as (l & Hl & Hll & Hexp).
  rewrite Hl. simpl. rewrite (item_lookup _ _ _ Hx). simpl.
  rewrite broadcast2_same by (rewrite length_map; lia).
  eexists. split; [reflexivity|]. split.
  - rewrite length_zip_with, length_map. lia.
  - intros i c Hc. rewrite (item_lookup _ _ _ Hx) in Hc. simpl in Hc.
    apply item_Ok in Hc. pose proof (lookup_lt_Some _ _ _ Hc) as Hi.
    destruct (Hexp i) as (e & He & Hle); [lia|].
    exists e. split; [exact He|].
    now rewrite lookup_zip_with, Hc, list_lookup_fmap, Hle.
Qed.

End Background.

(** C5, as stated, fails when a count equals F times the expected
    background. In the sample channel burst 0 has nd = 5, and 5 background
    counts are 5 times the expected count 1*8*(1/8): the count does not
    exceed the bound, yet [nd_bg] keeps the burst. On the same numbers
    (nt = 5, same rates) [nt_bg] drops it, so the four selectors do not
    compare alike. *)
Lemma bg_exceeds_counterexample :
  nd_bg Samples.three_bursts 0 5%Q = Ok [true; false; true] /\
  (exists e : Q,
     expected_bg (Data.bg_dd Samples.three_bursts) Samples.three_bursts 0 0 = Ok e /\
     item (Data.nd Samples.three_bursts) 0 ≫= (fun x => item x 0) = Ok 5%Q /\
     flt (fmul 5%Q e) 5%Q = false) /\
  nt_bg Samples.three_bursts 0 5%Q = Ok [false; false; true] /\
  Data.bg Samples.three_bursts = Data.bg_dd Samples.three_bursts /\
  item (Data.nt Samples.three_bursts) 0 ≫= (fun x => item x 0) = Ok 5%Q.
Proof.
  split; [reflexivity|]. split.
  - eexists. split; [reflexivity|]. split; reflexivity.
  - repeat split.
Qed.

(** C5, amended. For each of [nd_bg], [na_bg] and [naa_bg] and every
    burst i of a channel whose period bins index the rates, the mask is
    true at i exactly when the observed count (nd, na or naa) is at least
    F times the expected background count, which is the rate at the bin
    [bp[i]] times the width of the burst in ticks times [clk_p]. *)
Theorem bg_selectors_at_least {A : Type} `{Float A}
    (d : Data.t A) (ich n : nat) (F : A) (x y z : list A) :
  binned (Data.bg_dd d) d ich n ->
  binned (Data.bg_ad d) d ich n ->
  binned (Data.bg_aa d) d ich n ->
  Data.nd d !! ich = Some x -> length x = n ->
  Data.na d !! ich = Some y -> length y = n ->
  Data.naa d !! ich = Some z -> length z = n ->
  (exists mask, nd_bg d ich F = Ok mask /\ length mask = n /\
     keeps (fun v c => fle v c) (Data.bg_dd d) (Data.nd d) d ich F mask) /\
  (exists mask, na_bg d ich F = Ok mask /\ length mask = n /\
     keeps (fun v c => fle v c) (Data.bg_ad d) (Data.na d) d ich F mask) /\
  (exists mask, naa_bg d ich F = Ok mask /\ length mask = n /\
     keeps (fun v c => fle v c) (Data.bg_aa d) (Data.naa d) d ich F mask).
Proof.
  intros Hdd Had Haa Hx Hlx Hy Hly Hz Hlz.
  split; [|split].
  - exact (bg_selector_value (fun v c => fle v c) _ _ d ich n F x Hdd Hx Hlx).
  - exact (bg_selector_value (fun v c => fle v c) _ _ d ich n F y Had Hy Hly).
  - exact (bg_selector_value (fun v c => fle v c) _ _ d ich n F z Haa Hz Hlz).
Qed.

Lemma three_bursts_binned (bg : list (list Q)) :
  bg !! 0%nat = Some [1; 2]%Q -> binned bg Samples.three_bursts 0 3.
Proof.
  intros Hbg.
  exists [1; 2]%Q, [0; 0; 1], [mkBurst 0 8 8; mkBurst 8 16 24; mkBurst 24 8 32].
  repeat split; try assumption.
  repeat constructor; simpl; lia.
Qed.

Lemma bg_selectors_at_least_witness :
  binned (Data.bg_dd Samples.three_bursts) Samples.three_bursts 0 3 /\
  exists mask, nd_bg Samples.three_bursts 0 5%Q = Ok mask /\ length mask = 3%nat /\
    keeps (fun v c => fle v c) (Data.bg_dd Samples.three_bursts)
          (Data.nd Samples.three_bursts) Samples.three_bursts 0 5%Q mask.
Proof.
  split; [apply three_bursts_binned; reflexivity|].
  apply (bg_selectors_at_least Samples.three_bursts 0 3 5%Q
           [5; 3; 10]%Q [2; 7; 1]%Q [0; 0; 0]%Q);
    try reflexivity; apply three_bursts_binned; reflexivity.
Defined.

Lemma no_burst_empty : EmptyChannel Samples.no_burst 0.
Proof. split; try reflexivity; eexists; reflexivity. Qed.

(** C3, as stated, fails for the predicates that reduce a per-burst array:
    on a channel with zero bursts [period] with its default upper bound
    takes the maximum of an empty array and [fret_value] the minimum, and
    both raise [ValueError]. *)
Lemma empty_channel_counterexample :
  EmptyChannel Samples.no_burst 0 /\
  period Samples.no_burst 0 0 None = Raise ValueError /\
  @fret_value Q Q_Float Samples.no_stats Samples.no_burst 0 (1 # 2)%Q (1 # 100)%Q
    = Raise ValueError.
Proof.
  split; [exact no_burst_empty|]. split; reflexivity.
Qed.

Section Empty.
Context {A : Type} `{Float A} `{Extern A}.
Variable d : Data.t A.
Variable ich : nat.
Hypothesis Hempty : EmptyChannel d ich.

(** Rewrites the reads of the attributes of the empty channel. *)
Ltac read_empty :=
  repeat match goal with
  | |- context [item ?xs ich] =>
      first
        [ rewrite (item_lookup xs ich [])
            by (first [ apply (empty_E _ _ Hempty) | apply (empty_S _ _ Hempty)
                      | apply (empty_nd _ _ Hempty) | apply (empty_na _ _ Hempty)
                      | apply (empty_naa _ _ Hempty) | apply (empty_nt _ _ Hempty)
                      | apply (empty_bp _ _ Hempty)
                      | apply (empty_mburst _ _ Hempty)
                      | apply (empty_max_rate _ _ Hempty) ])
        | match goal with
          | Hs : xs !! ich = Some ?v |- _ => rewrite (item_lookup xs ich v Hs)
          end ];
      simpl
  end.

Lemma empty_ranges :
  (forall E1 E2, E d ich E1 E2 = Ok []) /\
  (forall S1 S2, S d ich S1 S2 = Ok []) /\
  (forall E1 E2 S1 S2, ES d ich E1 E2 S1 S2 = Ok []) /\
  (forall E1 E2 S1 S2, ESe d ich E1 E2 S1 S2 = Ok []) /\
  (forall bp1 bp2, period d ich bp1 (Some bp2) = Ok []) /\
  (forall t1 t2, time d ich t1 (Some t2) = Ok []) /\
  (forall th1 th2, nd d ich th1 th2 = Ok []) /\
  (forall th1 th2, na d ich th1 th2 = Ok []) /\
  (forall th1 th2, naa d ich th1 th2 = Ok []).
Proof.
  repeat split; intros;
    unfold E, S, ES, ESe, period, time, nd, na, naa, ellips; simpl;
    read_empty; reflexivity.
Qed.

Lemma empty_sizes :
  (forall gamma gamma1, burst_size d ich gamma gamma1 = Ok []) /\
  (forall gamma gamma1 add_naa, nda_size d ich gamma gamma1 add_naa = Ok []) /\
  (forall th1 th2 gamma gamma1 add_naa,
     formats_th1 d ich th1 -> formats_th2 d ich th2 ->
     nda d ich th1 th2 gamma gamma1 add_naa = Ok []) /\
  (forall N gamma gamma1, topN_nda d ich N gamma gamma1 = Ok []) /\
  (forall th1 th2, feqb (Data.clk_p d) (of_Z 0) = false ->
     width d ich th1 th2 = Ok []).
Proof.
  assert (Hbs : forall gamma gamma1, burst_size d ich gamma gamma1 = Ok []).
  { intros gamma [g1|]; unfold burst_size; read_empty; reflexivity. }
  assert (Hns : forall gamma gamma1 add_naa,
             nda_size d ich gamma gamma1 add_naa = Ok []).
  { intros. unfold nda_size. rewrite Hbs. simpl.
    destruct (Data.ALEX d && add_naa); [read_empty|]; reflexivity. }
  split; [exact Hbs|]. split; [exact Hns|]. split; [|split].
  - intros th1 th2 gamma gamma1 add_naa (a & za & Ha & Hza) (b & Hb & Hfb).
    rewrite (nda_value d ich th1 th2 gamma gamma1 add_naa [] a b); eauto.
  - intros. unfold topN_nda. rewrite Hbs. simpl.
    unfold argsort, slice_from. simpl. now rewrite drop_nil.
  - intros th1 th2 Hclk. unfold width, ms_to_ticks, pydiv. rewrite Hclk. simpl.
    read_empty. reflexivity.
Qed.

Lemma empty_background :
  (forall F, nd_bg d ich F = Ok []) /\
  (forall F, na_bg d ich F = Ok []) /\
  (forall F, naa_bg d ich F = Ok []) /\
  (forall F, nt_bg d ich F = Ok []) /\
  (forall P F, nd_bg_p d ich P F = Ok []) /\
  (forall P F, na_bg_p d ich P F = Ok []) /\
  (forall P F, naa_bg_p d ich P F = Ok []) /\
  (forall P F, nt_bg_p d ich P F = Ok []) /\
  (forall th, size_noise d ich th = Ok []) /\
  (forall th, size_noise_or d ich th = Ok []) /\
  (forall vs, length vs = Data.nch d -> (ich < length vs)%nat ->
     for_bt_fit d ich (Some (PerChannel vs)) = Ok []).
Proof.
  destruct (set_bg _ _ Hempty) as [r0 Hr0].
  destruct (set_bg_dd _ _ Hempty) as [r1 Hr1].
  destruct (set_bg_ad _ _ Hempty) as [r2 Hr2].
  destruct (set_bg_aa _ _ Hempty) as [r3 Hr3].
  destruct (set_rate_m _ _ Hempty) as [q0 Hq0].
  destruct (set_rate_dd _ _ Hempty) as [q1 Hq1].
  destruct (set_rate_ad _ _ Hempty) as [q2 Hq2].
  destruct (set_rate_aa _ _ Hempty) as [q3 Hq3].
  repeat split;
    try (intros;
         unfold nd_bg, na_bg, naa_bg, nt_bg, bg_burst,
                nd_bg_p, na_bg_p, naa_bg_p, nt_bg_p, size_noise, size_noise_or;
         simpl; read_empty; reflexivity).
  intros vs Hsize Hich.
  unfold for_bt_fit. rewrite Hsize, Nat.eqb_refl. simpl. read_empty.
  destruct (lookup_lt_is_Some_2 vs ich) as [bt Hbt]; [assumption|].
  rewrite (item_lookup _ _ _ Hbt). simpl. read_empty. reflexivity.
Qed.

Lemma empty_reductions :
  (forall bp1, period d ich bp1 None = Raise ValueError) /\
  (forall t1, time d ich t1 None = Raise ValueError) /\
  (forall p, max_rate d ich p = Raise ValueError) /\
  (forall F P_th, fret_value d ich F P_th = Raise ValueError).
Proof.
  repeat split; intros; unfold period, time, max_rate, fret_value; simpl;
    read_empty; reflexivity.
Qed.

(** The predicates on the gaps between bursts return a mask of one entry,
    not of none, on a channel with zero bursts. *)
Lemma empty_gaps :
  (forall th, feqb (Data.clk_p d) (of_Z 0) = false -> single d ich th = Ok [false]) /\
  attached d ich = Ok [false] /\
  attached2 d ich = Ok [false] /\
  (forall ms clk_p, feqb clk_p (of_Z 0) = false ->
     nearby d ich ms clk_p = Ok [false] /\ nearby2 d ich ms clk_p = Ok [false]).
Proof.
  split; [|split; [|split]].
  - intros th Hclk. unfold single, ms_to_ticks, pydiv. rewrite Hclk. simpl.
    read_empty. reflexivity.
  - unfold attached, b_separation. read_empty. reflexivity.
  - unfold attached2, b_separation. read_empty. reflexivity.
  - intros ms clk_p Hclk. unfold nearby, nearby2, b_separation, pydiv.
    read_empty. rewrite Hclk. split; reflexivity.
Qed.

End Empty.

(** C3, amended. On a channel with zero bursts the predicates whose mask
    comes from elementwise comparisons alone return an empty mask and
    raise no error: [E], [S], [ES], [ESe], [nd], [na], [naa],
    [topN_nda], [width], the eight background selectors, [size_noise],
    [size_noise_or], [for_bt_fit], [period] and [time] when their
    upper bound is given, and [nda] when its thresholds can be written
    into the label ([%d] refuses an infinity and a NaN, and [th2] is
    written only below 1000). With the default upper bound [period] and
    [time], and likewise [max_rate] and [fret_value], take the maximum or
    the minimum of an empty array and raise [ValueError]. *)
Theorem empty_channel_masks {A : Type} `{Float A} `{Extern A}
    (d : Data.t A) (ich : nat) :
  EmptyChannel d ich ->
  ((forall E1 E2, E d ich E1 E2 = Ok []) /\
   (forall S1 S2, S d ich S1 S2 = Ok []) /\
   (forall E1 E2 S1 S2, ES d ich E1 E2 S1 S2 = Ok []) /\
   (forall E1 E2 S1 S2, ESe d ich E1 E2 S1 S2 = Ok []) /\
   (forall bp1 bp2, period d ich bp1 (Some bp2) = Ok []) /\
   (forall t1 t2, time d ich t1 (Some t2) = Ok []) /\
   (forall th1 th2, nd d ich th1 th2 = Ok []) /\
   (forall th1 th2, na d ich th1 th2 = Ok []) /\
   (forall th1 th2, naa d ich th1 th2 = Ok [])) /\
  ((forall th1 th2 gamma gamma1 add_naa,
      formats_th1 d ich th1 -> formats_th2 d ich th2 ->
      nda d ich th1 th2 gamma gamma1 add_naa = Ok []) /\
   (forall N gamma gamma1, topN_nda d ich N gamma gamma1 = Ok []) /\
   (forall th1 th2, feqb (Data.clk_p d) (of_Z 0) = false ->
      width d ich th1 th2 = Ok [])) /\
  ((forall F, nd_bg d ich F = Ok []) /\
   (forall F, na_bg d ich F = Ok []) /\
   (forall F, naa_bg d ich F = Ok []) /\
   (forall F, nt_bg d ich F = Ok []) /\
   (forall P F, nd_bg_p d ich P F = Ok []) /\
   (forall P F, na_bg_p d ich P F = Ok []) /\
   (forall P F, naa_bg_p d ich P F = Ok []) /\
   (forall P F, nt_bg_p d ich P F = Ok []) /\
   (forall th, size_noise d ich th = Ok []) /\
   (forall th, size_noise_or d ich th = Ok []) /\
   (forall vs, length vs = Data.nch d -> (ich < length vs)%nat ->
      for_bt_fit d ich (Some (PerChannel vs)) = Ok [])) /\
  ((forall bp1, period d ich bp1 None = Raise ValueError) /\
   (forall t1, time d ich t1 None = Raise ValueError) /\
   (forall p, max_rate d ich p = Raise ValueError) /\
   (forall F P_th, fret_value d ich F P_th = Raise ValueError)).
Proof.
  intros Hempty. split; [exact (empty_ranges d ich Hempty)|].
  split; [|split].
  - destruct (empty_sizes d ich Hempty) as (_ & _ & Hnda & Htop & Hw). auto.
  - exact (empty_background d ich Hempty).
  - exact (empty_reductions d ich Hempty).
Qed.

Lemma empty_channel_masks_witness :
  EmptyChannel Samples.no_burst 0 /\
  nd Samples.no_burst 0 20%Q 1000%Q = Ok [] /\
  nda Samples.no_burst 0 (Scalar 20%Q) (Scalar 1000%Q) 1%Q None false = Ok [] /\
  period Samples.no_burst 0 0 (Some 3) = Ok [] /\
  period Samples.no_burst 0 0 None = Raise ValueError.
Proof.
  pose proof (@empty_channel_masks Q Q_Float Samples.no_stats
                Samples.no_burst 0%nat no_burst_empty)
    as (Hr & Hs & _ & Hv).
  split; [exact no_burst_empty|].
  split; [apply Hr|]. split; [|split].
  - destruct Hs as (Hnda & _). apply Hnda.
    + exists 20%Q, 20. split; reflexivity.
    + exists 1000%Q. split; [reflexivity | now left].
  - apply Hr.
  - apply Hv.
Defined.

(** The four probabilistic selectors keep burst i exactly when its count
    is at least [poisson_isf (F*rate*width_s) P], the width in seconds
    being the width in ticks times the clock period of [clk_to_s]; what
    [poisson_isf] computes is scipy's matter. *)
Lemma bg_p_selectors_value {A : Type} `{Float A} `{Extern A}
    (d : Data.t A) (ich : nat) (P F r : A) (mb : list Burst) (x : list A) :
  Data.mburst d !! ich = Some mb -> length x = length mb ->
  let mask :=
    zip_with (fun c b =>
                fle (poisson_isf
                       (fmul (fmul F r) (fmul (of_Z (width_ b)) clk_to_s_period)) P) c)
             x mb in
  (Data.rate_dd d !! ich = Some r -> Data.nd d !! ich = Some x ->
   nd_bg_p d ich P F = Ok mask) /\
  (Data.rate_ad d !! ich = Some r -> Data.na d !! ich = Some x ->
   na_bg_p d ich P F = Ok mask) /\
  (Data.rate_aa d !! ich = Some r -> Data.naa d !! ich = Some x ->
   naa_bg_p d ich P F = Ok mask) /\
  (Data.rate_m d !! ich = Some r -> Data.nt d !! ich = Some x ->
   nt_bg_p d ich P F = Ok mask).
Proof.
  intros Hmb Hlen mask.
  assert (Hzip : zip_with (fun (n k : A) => fle k n) x
            (map (fun w => poisson_isf (fmul (fmul F r) w) P)
                 (clk_to_s (b_width mb))) = mask).
  { unfold mask, clk_to_s, b_width. rewrite !map_map.
    clear Hmb mask. revert mb Hlen.
    induction x as [|c x IH]; intros [|b mb]; simpl; try discriminate;
      [reflexivity|].
    intros [= Hlen]. now rewrite IH. }
  repeat split; intros Hr Hx;
    unfold nd_bg_p, na_bg_p, naa_bg_p, nt_bg_p;
    rewrite (item_lookup _ _ _ Hr), (item_lookup _ _ _ Hmb),
            (item_lookup _ _ _ Hx); simpl;
    (rewrite broadcast2_same
       by (unfold clk_to_s, b_width; rewrite !length_map; exact Hlen));
    now rewrite Hzip.
Qed.

(** The mean of the background counts in the burst of
    [Samples.faint_burst], as the selectors compute it with F = 1, is
    0.6. *)
Lemma faint_burst_mean :
  Q2R (fmul (fmul 1%Q 6000%Q) (fmul (of_Z 8000) (1 # 80000000)%Q))
    = (3 / 5)%R.
Proof.
  change (Q2R (Qmult (Qmult 1 6000) (Qmult (inject_Z 8000) (1 # 80000000)))
          = (3 / 5)%R).
  rewrite !Q2R_mult. unfold Q2R. cbn [Qnum Qden inject_Z]. lra.
Qed.

(** C6. The claim fails on the code. Whenever [poisson_isf] returns what
    scipy documents, the inverse of P(X > k), the four probabilistic
    selectors keep the burst of [Samples.faint_burst], whose count is 2,
    at P = 0.05 and F = 1; the expected background is 0.6 counts, every
    smallest count k with P(X >= k) <= P is above 2 (it is 3), and
    P(X >= 2) exceeds P, so that the criterion of the docstrings,
    P{F*BG >= n} < P, rejects the burst as well. *)
Theorem bg_p_keeps_below_threshold (ext : Extern Q) :
  Poisson.documented ext ->
  @clk_to_s_period Q ext = (1 # 80000000)%Q ->
  (@nd_bg_p Q Q_Float ext Samples.faint_burst 0 (1 # 20)%Q 1%Q = Ok [true] /\
   @na_bg_p Q Q_Float ext Samples.faint_burst 0 (1 # 20)%Q 1%Q = Ok [true] /\
   @naa_bg_p Q Q_Float ext Samples.faint_burst 0 (1 # 20)%Q 1%Q = Ok [true] /\
   @nt_bg_p Q Q_Float ext Samples.faint_burst 0 (1 # 20)%Q 1%Q = Ok [true]) /\
  (Data.nd Samples.faint_burst = [[2%Q]] /\
   Data.na Samples.faint_burst = [[2%Q]] /\
   Data.naa Samples.faint_burst = [[2%Q]] /\
   Data.nt Samples.faint_burst = [[2%Q]]) /\
  Q2R (fmul (fmul 1%Q 6000%Q) (fmul (of_Z 8000) (@clk_to_s_period Q ext)))
    = (3 / 5)%R /\
  Poisson.is_threshold (3 / 5) (Q2R (1 # 20)) 3 /\
  (forall k, Poisson.is_threshold (3 / 5) (Q2R (1 # 20)) k -> 2 < k) /\
  (Q2R (1 # 20) < Poisson.tail (3 / 5) 2)%R.
Proof.
  intros Hdoc Hclk.
  assert (HP : Q2R (1 # 20) = (1 / 20)%R) by (unfold Q2R; simpl; lra).
  assert (Hisf : @poisson_isf Q ext
                   (fmul (fmul 1%Q 6000%Q)
                         (fmul (of_Z 8000) (@clk_to_s_period Q ext)))
                   (1 # 20)%Q = inject_Z 2).
  { apply Hdoc. rewrite Hclk, faint_burst_mean, HP.
    exact PoissonFacts.isf_at_sample. }
  assert (Hmb : Data.mburst Samples.faint_burst !! 0%nat
                = Some [mkBurst 0 8000 8000]) by reflexivity.
  assert (Hlen : length [2%Q] = length [mkBurst 0 8000 8000]) by reflexivity.
  destruct (@bg_p_selectors_value Q Q_Float ext Samples.faint_burst 0%nat
              (1 # 20)%Q 1%Q 6000%Q [mkBurst 0 8000 8000] [2%Q] Hmb Hlen)
    as (Hd & Ha & Haa & Ht).
  cbn [zip_with width_] in Hd, Ha, Haa, Ht.
  rewrite Hisf in Hd, Ha, Haa, Ht.
  split; [|split; [|split; [|split; [|split]]]].
  - repeat split; [apply Hd | apply Ha | apply Haa | apply Ht]; reflexivity.
  - repeat split.
  - rewrite Hclk. exact faint_burst_mean.
  - rewrite HP. exact PoissonFacts.threshold_at_sample.
  - intros k Hk. rewrite HP in Hk.
    rewrite (PoissonFacts.is_threshold_unique _ _ _ _ Hk
               PoissonFacts.threshold_at_sample). lia.
  - rewrite HP. exact PoissonFacts.tail_at_sample.
Qed.

Lemma bg_p_keeps_below_threshold_witness :
  Poisson.documented Samples.documented_isf /\
  @na_bg_p Q Q_Float Samples.documented_isf Samples.faint_burst 0
     (1 # 20)%Q 1%Q = Ok [true] /\
  Poisson.is_threshold (3 / 5) (Q2R (1 # 20)) 3.
Proof.
  assert (Hclk : @clk_to_s_period Q Samples.documented_isf = (1 # 80000000)%Q)
    by reflexivity.
  pose proof (bg_p_keeps_below_threshold Samples.documented_isf
                PoissonFacts.isf_doc_documented Hclk)
    as ((_ & Hna & _) & _ & _ & Hth & _).
  split; [exact PoissonFacts.isf_doc_documented|].
  split; [exact Hna | exact Hth].
Defined.

End SelectFacts.

(** ** Further properties of loaders.py *)

Module LoadersExtra.
Import Loaders NpFacts LoadersFacts.

Lemma select_range_in_window times period edges :
  _select_range times period edges = map (in_window period edges) times.
Proof. apply select_range_map. Qed.

Lemma select_map_filter {A B} (f : A -> B) (g : A -> bool) (zs : list A) :
  Np.select (map f zs) (map g zs) = map f (List.filter g zs).
Proof.
  induction zs as [|z zs IH]; simpl; [reflexivity|].
  destruct (g z); simpl; now rewrite IH.
Qed.

Lemma filter_filter {A} (g h : A -> bool) (zs : list A) :
  List.filter g (List.filter h zs) = List.filter (fun z => h z && g z) zs.
Proof.
  induction zs as [|z zs IH]; simpl; [reflexivity|].
  destruct (h z); simpl; [destruct (g z)|]; now rewrite IH.
Qed.

Lemma excitation_partition dx ax :
  length dx = length ax ->
  Np.any (zip_with andb dx ax) = false ->
  exactly_one (Np.select dx (zip_with orb dx ax))
              (Np.select ax (zip_with orb dx ax)).
Proof.
  revert ax. induction dx as [|a dx IH]; intros [|b ax]; simpl;
    try discriminate; [constructor|].
  intros [= Hlen] Hany. apply orb_false_iff in Hany as [Hab Hany].
  specialize (IH ax Hlen Hany).
  destruct a, b; simpl in *; try discriminate; try (constructor; auto).
  exact IH.
Qed.

(** The arrays a returning run computes, over the photons that pass the
    detector filter. *)
Lemma usalex_Ok_inv d del d' :
  usalex_apply_period d del = Ok d' ->
  exists ph dm am,
    emission_masks d = Ok (ph, dm, am) /\ exactly_one dm am /\
    let dx := _select_range ph (alex_period d) (D_ON d) in
    let ax := _select_range ph (alex_period d) (A_ON d) in
    let mask := zip_with orb dx ax in
    Np.any (zip_with andb dx ax) = false /\
    d' = (let d1 := add d (Np.select ph mask) (Np.select dm mask)
                        (Np.select am mask) (Np.select dx mask)
                        (Np.select ax mask) in
          if del then delete_raw d1 else d1).
Proof.
  intros Hrun. pose proof Hrun as H.
  unfold usalex_apply_period in H.
  apply bind_Ok in H as ([[ph dm] am] & Hm & H).
  apply bind_Ok in H as ([] & Hc & _).
  destruct (emission_masks_lengths _ _ _ _ Hm) as [Hdm Ham].
  apply checks_exactly_one in Hc; [|congruence].
  rewrite (usalex_run d del ph dm am Hm Hc) in Hrun.
  exists ph, dm, am. split; [exact Hm|]. split; [exact Hc|].
  simpl. revert Hrun. destruct (Np.any _).
  - discriminate.
  - intros [= <-]. split; reflexivity.
Qed.

(** X1. A returning run keeps exactly the photons that are on one of the
    two detectors and inside one of the two windows, in their order: the
    five outputs are the timestamps, the two detector tests and the two
    window tests of these photons. *)
Theorem usalex_outputs_filter (d d' : Data) (del : bool) (times det : list Z) :
  ph_times_t d = Some times -> det_t d = Some det ->
  usalex_apply_period d del = Ok d' ->
  let kept := List.filter (retained d) (zip times det) in
  ph_times_m d' = Some [map fst kept] /\
  D_em d' = Some [map (fun p => p.2 =? (det_donor_accept d).1) kept] /\
  A_em d' = Some [map (fun p => p.2 =? (det_donor_accept d).2) kept] /\
  D_ex d' = Some [map (fun p => in_window (alex_period d) (D_ON d) p.1) kept] /\
  A_ex d' = Some [map (fun p => in_window (alex_period d) (A_ON d) p.1) kept].
Proof.
  intros Ht Hd Hrun kept.
  apply usalex_Ok_inv in Hrun as (ph & dm & am & Hm & _ & _ & ->).
  apply emission_masks_Ok in Hm
    as (det0 & times0 & Hd0 & Ht0 & Hlen & Hph & Hdm & Ham).
  rewrite Hd in Hd0. rewrite Ht in Ht0.
  injection Hd0 as <-. injection Ht0 as <-.
  set (donor := (det_donor_accept d).1) in *.
  set (accept := (det_donor_accept d).2) in *.
  set (zs := zip times det).
  assert (Hfst : times = map fst zs)
    by (symmetry; apply (fst_zip times det); lia).
  assert (Hsnd : det = map snd zs)
    by (symmetry; apply (snd_zip times det); lia).
  set (h := fun p : Z * Z => (p.2 =? donor) || (p.2 =? accept)).
  set (zs1 := List.filter h zs).
  assert (Hph' : ph = map fst zs1).
  { rewrite Hph. rewrite Hfst at 1. rewrite Hsnd, map_map.
    apply (select_map_filter fst h zs). }
  assert (Hsel : Np.select det
            (map (fun l => (l =? donor) || (l =? accept)) det) = map snd zs1).
  { rewrite Hsnd at 1. rewrite Hsnd, map_map.
    apply (select_map_filter snd h zs). }
  rewrite Hsel, map_map in Hdm. rewrite Hsel, map_map in Ham.
  set (g := fun p : Z * Z => in_window (alex_period d) (D_ON d) p.1
                             || in_window (alex_period d) (A_ON d) p.1).
  assert (Hkept : kept = List.filter g zs1).
  { unfold zs1. rewrite filter_filter. reflexivity. }
  rewrite !select_range_in_window, Hph', !map_map, zip_with_map_same.
  rewrite Hdm, Ham, Hkept.
  rewrite !(select_map_filter _ g zs1).
  destruct del; simpl; repeat split; reflexivity.
Qed.

Lemma usalex_outputs_filter_witness :
  ph_times_t d_sample = Some [3000; 1000; 3100; 700; 5000] /\
  det_t d_sample = Some [0; 1; 2; 1; 0] /\
  exists d',
    usalex_apply_period d_sample true = Ok d' /\
    ph_times_m d'
      = Some [map fst (List.filter (retained d_sample)
                         (zip [3000; 1000; 3100; 700; 5000] [0; 1; 2; 1; 0]))].
Proof.
  split; [reflexivity|]. split; [reflexivity|].
  eexists. split; [reflexivity|].
  apply (usalex_outputs_filter d_sample _ true
           [3000; 1000; 3100; 700; 5000] [0; 1; 2; 1; 0]); reflexivity.
Defined.

(** X2. In the output of a returning run every photon has exactly one of
    the two emission flags and exactly one of the two excitation flags. *)
Theorem usalex_outputs_partition (d d' : Data) (del : bool) :
  usalex_apply_period d del = Ok d' ->
  exists d_em a_em d_ex a_ex,
    D_em d' = Some [d_em] /\ A_em d' = Some [a_em] /\
    D_ex d' = Some [d_ex] /\ A_ex d' = Some [a_ex] /\
    exactly_one d_em a_em /\ exactly_one d_ex a_ex.
Proof.
  intros Hrun.
  apply usalex_Ok_inv in Hrun as (ph & dm & am & Hm & Hx & Hany & ->).
  do 4 eexists.
  split; [destruct del; reflexivity|]. split; [destruct del; reflexivity|].
  split; [destruct del; reflexivity|]. split; [destruct del; reflexivity|].
  split.
  - apply select_Forall2. exact Hx.
  - apply excitation_partition; [|exact Hany].
    now rewrite !select_range_length.
Qed.

Lemma usalex_outputs_partition_witness :
  exists d',
    usalex_apply_period d_sample false = Ok d' /\
    exists d_em a_em d_ex a_ex,
      D_em d' = Some [d_em] /\ A_em d' = Some [a_em] /\
      D_ex d' = Some [d_ex] /\ A_ex d' = Some [a_ex] /\
      exactly_one d_em a_em /\ exactly_one d_ex a_ex.
Proof.
  eexists. split; [reflexivity|].
  apply (usalex_outputs_partition d_sample _ false). reflexivity.
Defined.

Lemma emission_masks_paired d times det :
  ph_times_t d = Some times -> det_t d = Some det ->
  length times = length det ->
  exists ph dm am, emission_masks d = Ok (ph, dm, am).
Proof.
  intros Ht Hd Hlen. unfold emission_masks.
  destruct (det_donor_accept d) as [donor accept].
  rewrite Hd, Ht. simpl. unfold Np.bor.
  rewrite broadcast2_same by now rewrite !length_map.
  simpl.
  rewrite !mask_index_same
    by (rewrite length_zip_with, !length_map; lia).
  simpl. eauto.
Qed.

Lemma any_map_false {A} (f : A -> bool) (l : list A) :
  (forall x, f x = false) -> Np.any (map f l) = false.
Proof.
  intros Hf. induction l as [|x l IH]; [reflexivity|].
  change (f x || Np.any (map f l) = false). now rewrite Hf, IH.
Qed.

Lemma default_windows_disjoint (t : Z) :
  in_window 4000 (2850, 580) t && in_window 4000 (930, 2580) t = false.
Proof.
  unfold in_window, Np.mod_. simpl.
  destruct (Z.ltb_spec 2850 (t mod 4000)), (Z.ltb_spec (t mod 4000) 580),
           (Z.ltb_spec 930 (t mod 4000)), (Z.ltb_spec (t mod 4000) 2580);
    simpl; try reflexivity; lia.
Qed.

(** X3. With the windows, the period and the detector ids that
    [load_usalex] sets, [usalex_apply_period] returns for every photon
    stream of paired arrays: no assertion can fail on loaded data. *)
Theorem load_usalex_applies (ph_times_t det_t : list Z) (del : bool) :
  length ph_times_t = length det_t ->
  exists d', usalex_apply_period (load_usalex ph_times_t det_t) del = Ok d'.
Proof.
  intros Hlen. set (d := load_usalex ph_times_t det_t).
  destruct (emission_masks_paired d ph_times_t det_t eq_refl eq_refl Hlen)
    as (ph & dm & am & Hm).
  assert (Hx : exactly_one dm am).
  { apply (emission_masks_partition d ph dm am); [simpl; lia | exact Hm]. }
  rewrite (usalex_run d del ph dm am Hm Hx).
  assert (Hany : Np.any (zip_with andb
             (_select_range ph (alex_period d) (D_ON d))
             (_select_range ph (alex_period d) (A_ON d))) = false).
  { rewrite !select_range_in_window, zip_with_map_same.
    apply any_map_false. intros t. apply default_windows_disjoint. }
  rewrite Hany. eauto.
Qed.

Lemma load_usalex_applies_witness :
  length [3000; 1000; 700] = length [0; 1; 1] /\
  exists d', usalex_apply_period (load_usalex [3000; 1000; 700] [0; 1; 1]) true
             = Ok d'.
Proof.
  split; [reflexivity|].
  apply (load_usalex_applies [3000; 1000; 700] [0; 1; 1] true). reflexivity.
Defined.

(** X4. A run that kept the raw arrays ([delete_ph_t] false) can be
    repeated and gives the same object again; after a run that deleted
    them a second run raises [AttributeError]. *)
Theorem usalex_apply_twice (d d' : Data) (del : bool) :
  usalex_apply_period d del = Ok d' ->
  usalex_apply_period d' del = if del then Raise AttributeError else Ok d'.
Proof.
  intros Hrun.
  apply usalex_Ok_inv in Hrun as (ph & dm & am & Hm & Hx & Hany & ->).
  destruct del.
  - unfold usalex_apply_period, emission_masks. simpl.
    destruct (det_donor_accept d). reflexivity.
  - simpl. simpl in Hany.
    match goal with |- usalex_apply_period ?d1 false = _ => set (d1' := d1) end.
    assert (Hm' : emission_masks d1' = Ok (ph, dm, am)) by exact Hm.
    rewrite (usalex_run d1' false ph dm am Hm' Hx).
    change (alex_period d1') with (alex_period d).
    change (D_ON d1') with (D_ON d). change (A_ON d1') with (A_ON d).
    rewrite Hany. reflexivity.
Qed.

Lemma usalex_apply_twice_witness :
  exists d',
    usalex_apply_period d_sample false = Ok d' /\
    usalex_apply_period d' false = Ok d'.
Proof.
  eexists. split; [reflexivity|].
  apply (usalex_apply_twice d_sample _ false). reflexivity.
Defined.

(** X5. The classifier sees a timestamp only through its phase in the
    period: shifting every timestamp by a whole number of periods leaves
    the mask unchanged. *)
Theorem select_range_shift (times : list Z) (period k : Z) (edges : Z * Z) :
  _select_range (map (fun t => t + k * period) times) period edges
  = _select_range times period edges.
Proof.
  rewrite !select_range_in_window, map_map. apply map_ext. intros t.
  unfold in_window, Np.mod_.
  destruct (Z.eqb_spec period 0) as [->|Hp]; [reflexivity|].
  now rewrite Z.mod_add.
Qed.

(** X6. Swapping the edges of a window gives the complementary window:
    for e0 < e1 and a period > 0, a timestamp is never in both (e0, e1)
    and (e1, e0), and it is in neither exactly when its phase is e0 or e1. *)
Theorem select_range_swap (times : list Z) (period e0 e1 : Z) :
  0 < period -> e0 < e1 ->
  forall (i : nat) (t : Z), times !! i = Some t ->
    exists a b,
      _select_range times period (e0, e1) !! i = Some a /\
      _select_range times period (e1, e0) !! i = Some b /\
      a && b = false /\
      (a || b = false <-> t mod period = e0 \/ t mod period = e1).
Proof.
  intros Hp He i t Hi. rewrite !select_range_in_window.
  exists (in_window period (e0, e1) t), (in_window period (e1, e0) t).
  split; [now rewrite list_lookup_fmap, Hi|].
  split; [now rewrite list_lookup_fmap, Hi|].
  unfold in_window, Np.mod_. simpl.
  destruct (Z.eqb_spec period 0) as [->|_]; [lia|].
  destruct (Z.ltb_spec e0 e1), (Z.ltb_spec e1 e0); lia.
Qed.

Lemma select_range_swap_witness :
  0 < 4000 /\ 580 < 2850 /\
  exists a b,
    _select_range [3000; 580; 1000] 4000 (580, 2850) !! 1%nat = Some a /\
    _select_range [3000; 580; 1000] 4000 (2850, 580) !! 1%nat = Some b /\
    a && b = false /\
    (a || b = false <-> 580 mod 4000 = 580 \/ 580 mod 4000 = 2850).
Proof.
  split; [lia|]. split; [lia|].
  apply (select_range_swap [3000; 580; 1000] 4000 580 2850); [lia | lia |].
  reflexivity.
Defined.

End LoadersExtra.

(** ** Further properties of select_bursts.py *)

Module SelectExtra.
Import SelectBursts NpFacts SelectFacts.

Lemma sum_replicate_false n : Np.sum (replicate n false) = 0.
Proof. induction n as [|n IH]; simpl; [reflexivity | exact IH]. Qed.

Lemma sum_insert_true (m : list bool) (j : nat) :
  m !! j = Some false -> Np.sum (<[j:=true]> m) = Np.sum m + 1.
Proof.
  revert j. induction m as [|b m IH]; intros [|j]; simpl; try discriminate.
  - intros [= ->]. reflexivity.
  - intros Hj. rewrite (IH j Hj). destruct b; lia.
Qed.

Lemma sum_set_true (m : list bool) (idx : list nat) :
  NoDup idx -> (forall i, i ∈ idx -> m !! i = Some false) ->
  Np.sum (set_true m idx) = Np.sum m + Z.of_nat (length idx).
Proof.
  intros Hnd. revert m. induction Hnd as [|j idx Hj Hnd IH]; intros m Hm.
  - simpl. lia.
  - change (Np.sum (set_true (<[j:=true]> m) idx)
            = Np.sum m + Z.of_nat (Datatypes.S (length idx))).
    rewrite IH.
    + rewrite sum_insert_true by (apply Hm; left). lia.
    + intros i Hi. rewrite list_lookup_insert_ne by (intros ->; contradiction).
      apply Hm. now right.
Qed.

Section TopN.
Context {A : Type} `{Float A}.

Lemma argsort_length_seq (xs : list A) : length (argsort xs) = length xs.
Proof. now rewrite argsort_perm, length_seq. Qed.

Lemma argsort_NoDup (xs : list A) : NoDup (argsort xs).
Proof. rewrite argsort_perm. apply NoDup_seq. Qed.

Lemma slice_from_length {B} (xs : list B) (s : Z) :
  Z.of_nat (length (slice_from xs s))
  = Z.of_nat (length xs)
    - (if s <? 0 then Z.max (Z.of_nat (length xs) + s) 0
       else Z.min s (Z.of_nat (length xs))).
Proof.
  unfold slice_from. rewrite length_drop.
  destruct (Z.ltb_spec s 0); lia.
Qed.

Lemma topN_nda_count (d : Data.t A) ich N gamma gamma1 bs :
  burst_size d ich gamma gamma1 = Ok bs ->
  exists mask,
    topN_nda d ich N gamma gamma1 = Ok mask /\
    length mask = length bs /\
    Np.sum mask = Z.of_nat (length (slice_from (argsort bs) (- N))).
Proof.
  intros Hbs. unfold topN_nda. rewrite Hbs. simpl.
  eexists. split; [reflexivity|]. split.
  - now rewrite set_true_length, length_replicate.
  - rewrite sum_set_true.
    + now rewrite sum_replicate_false.
    + unfold slice_from. eapply sublist_NoDup; [apply argsort_NoDup|].
      apply sublist_drop.
    + intros i Hi. apply lookup_replicate_2.
      apply (argsort_elem bs i). unfold slice_from in Hi.
      eapply subseteq_drop. exact Hi.
Qed.

End TopN.

(** X7. [topN_nda] with N > 0 marks exactly min(N, n) of the n bursts of
    the channel, and all of them when N >= n; the mask has one entry per
    burst. *)
Theorem topN_nda_marks {A : Type} `{Float A}
    (d : Data.t A) (ich : nat) (N : Z) (gamma : A) (gamma1 : option A)
    (x y : list A) :
  Data.nd d !! ich = Some x -> Data.na d !! ich = Some y ->
  length x = length y -> 0 < N ->
  exists mask,
    topN_nda d ich N gamma gamma1 = Ok mask /\
    length mask = length x /\
    Np.sum mask = Z.min N (Z.of_nat (length x)) /\
    (Z.of_nat (length x) <= N -> mask = replicate (length x) true).
Proof.
  intros Hx Hy Hlen HN.
  destruct (burst_size_aligned d ich gamma gamma1 x y Hx Hy Hlen)
    as (bs & Hbs & Hl).
  destruct (topN_nda_count d ich N gamma gamma1 bs Hbs)
    as (mask & Hrun & Hlm & Hsum).
  exists mask. split; [exact Hrun|]. split; [congruence|].
  rewrite slice_from_length, argsort_length_seq in Hsum.
  split.
  - rewrite Hsum, Hl. destruct (Z.ltb_spec (- N) 0); lia.
  - intros Hall. unfold topN_nda in Hrun. rewrite Hbs in Hrun.
    simpl in Hrun. injection Hrun as <-. rewrite <- Hl.
    rewrite set_true_all; rewrite length_replicate; [reflexivity|].
    intros i Hi. unfold slice_from.
    rewrite argsort_length_seq.
    replace (Z.to_nat _) with 0%nat
      by (destruct (Z.ltb_spec (- N) 0); lia).
    simpl. now apply argsort_elem.
Qed.

Lemma topN_nda_marks_witness :
  Data.nd Samples.three_bursts !! 0%nat = Some [5; 3; 10]%Q /\
  Data.na Samples.three_bursts !! 0%nat = Some [2; 7; 1]%Q /\
  0 < 2 /\
  exists mask,
    topN_nda Samples.three_bursts 0 2 1%Q None = Ok mask /\
    length mask = 3%nat /\ Np.sum mask = Z.min 2 3.
Proof.
  split; [reflexivity|]. split; [reflexivity|]. split; [lia|].
  destruct (topN_nda_marks Samples.three_bursts 0 2 1%Q None
              [5; 3; 10]%Q [2; 7; 1]%Q)
    as (mask & Hrun & Hlen & Hsum & _); try reflexivity.
  exists mask. auto.
Defined.

Lemma fold_max_ge (xs : list Z) (x : Z) :
  x <= fold_left Z.max xs x /\ forall b, b ∈ xs -> b <= fold_left Z.max xs x.
Proof.
  revert x. induction xs as [|y xs IH]; intros x; simpl.
  - split; [lia | intros b Hb; now apply elem_of_nil in Hb].
  - destruct (IH (Z.max x y)) as [Hx Hall]. split; [lia|].
    intros b Hb. apply elem_of_cons in Hb as [->|Hb]; [lia | auto].
Qed.

(** X8. On a channel with at least one burst, [period] with its default
    upper bound (the largest period of the channel) selects exactly the
    bursts whose period is at least [bp1]. *)
Theorem period_default_bound {A : Type} `{Float A}
    (d : Data.t A) (ich : nat) (bp1 : Z) (bp : list Z) :
  Data.bp d !! ich = Some bp -> bp <> [] ->
  period d ich bp1 None = Ok (map (fun b => bp1 <=? b) bp).
Proof.
  intros Hbp Hne. unfold period. rewrite (item_lookup _ _ _ Hbp). simpl.
  destruct bp as [|b0 bp']; [congruence|].
  destruct (fold_max_ge bp' b0) as [H0 Hall].
  change (reduce Z.max (b0 :: bp')) with (Ok (fold_left Z.max bp' b0)).
  set (M := fold_left Z.max bp' b0) in *.
  assert (Hle : forall b, b ∈ b0 :: bp' -> b <= M)
    by (intros b Hb; apply elem_of_cons in Hb as [->|Hb]; auto).
  clear Hbp Hne H0 Hall. revert Hle. generalize (b0 :: bp'). intros l Hle.
  change (Np.band (map (fun b => bp1 <=? b) l) (map (fun b => b <=? M) l)
          = Ok (map (fun b => bp1 <=? b) l)).
  unfold Np.band. rewrite broadcast2_same by now rewrite !length_map.
  f_equal. rewrite LoadersFacts.zip_with_map_same.
  apply map_ext_in. intros b Hb. apply list_elem_of_In in Hb.
  apply Hle, Z.leb_le in Hb. rewrite Hb. apply andb_true_r.
Qed.

Lemma period_default_bound_witness :
  Data.bp Samples.three_bursts !! 0%nat = Some [0; 0; 1] /\
  period Samples.three_bursts 0 1 None = Ok (map (fun b => 1 <=? b) [0; 0; 1]).
Proof.
  split; [reflexivity|].
  apply (period_default_bound Samples.three_bursts 0 1 [0; 0; 1]);
    [reflexivity | discriminate].
Defined.

(** X9. [ES] is the conjunction of [E] and [S]: on a channel whose E and
    S arrays have one length its mask is, entry by entry, the mask of [E]
    and the mask of [S]. *)
Theorem ES_is_E_and_S {A : Type} `{Float A}
    (d : Data.t A) (ich : nat) (E1 E2 S1 S2 : A) (e s : list A) :
  Data.E d !! ich = Some e -> Data.S d !! ich = Some s ->
  length e = length s ->
  exists me ms,
    E d ich E1 E2 = Ok me /\ S d ich S1 S2 = Ok ms /\
    length me = length e /\ length ms = length e /\
    ES d ich E1 E2 S1 S2 = Ok (zip_with andb me ms).
Proof.
  intros He Hs Hlen. unfold E, S, ES, Np.band, ge_s, le_s.
  rewrite (item_lookup _ _ _ He), (item_lookup _ _ _ Hs). simpl.
  rewrite !broadcast2_same by now rewrite !length_map.
  simpl. rewrite !LoadersFacts.zip_with_map_same.
  rewrite !broadcast2_same
    by (rewrite ?length_zip_with, !length_map; lia).
  simpl.
  rewrite broadcast2_same
    by (rewrite ?length_zip_with, !length_map; lia).
  do 2 eexists. split; [reflexivity|]. split; [reflexivity|].
  split; [now rewrite length_map|]. split; [rewrite length_map; lia|].
  f_equal. clear He Hs. revert s Hlen.
  induction e as [|a e IH]; intros [|b s]; simpl; try discriminate;
    [reflexivity|].
  intros [= Hlen]. rewrite (IH s Hlen). f_equal.
  destruct (fle S1 b), (fle b S2), (fle E1 a), (fle a E2); reflexivity.
Qed.

Lemma ES_is_E_and_S_witness :
  Data.E Samples.three_bursts !! 0%nat = Some [1 # 2; 1 # 4; 3 # 4]%Q /\
  Data.S Samples.three_bursts !! 0%nat = Some [1 # 2; 1 # 2; 1 # 2]%Q /\
  exists me ms,
    E Samples.three_bursts 0 (3 # 10)%Q 1%Q = Ok me /\
    S Samples.three_bursts 0 0%Q 1%Q = Ok ms /\
    ES Samples.three_bursts 0 (3 # 10)%Q 1%Q 0%Q 1%Q = Ok (zip_with andb me ms).
Proof.
  split; [reflexivity|]. split; [reflexivity|].
  destruct (ES_is_E_and_S Samples.three_bursts 0 (3 # 10)%Q 1%Q 0%Q 1%Q
              [1 # 2; 1 # 4; 3 # 4]%Q [1 # 2; 1 # 2; 1 # 2]%Q)
    as (me & ms & HE & HS & _ & _ & HES); try reflexivity.
  exists me, ms. auto.
Defined.

(** X10. [attached] and [attached2] mark the two bursts of the same
    pairs: for a channel with bursts, the mask of [attached2] is the mask
    of [attached] moved by one place, entry i of [attached] telling that
    burst i+1 starts no later than burst i ends. *)
Theorem attached_pairs {A : Type} `{Float A}
    (d : Data.t A) (ich : nat) (mb : list Burst) :
  Data.mburst d !! ich = Some mb -> mb <> [] ->
  exists g : list bool,
    attached d ich = Ok (g ++ [false]) /\
    attached2 d ich = Ok ([false] ++ g) /\
    length (g ++ [false]) = length mb /\
    forall i : nat,
      g !! i = Some true <->
      exists c s, mb !! i = Some c /\ mb !! (1 + i)%nat = Some s /\
                  start s <= end_ c.
Proof.
  intros Hmb Hne. unfold attached, attached2, b_separation.
  rewrite (item_lookup _ _ _ Hmb). simpl.
  rewrite broadcast2_same by apply gaps_length. simpl.
  eexists. split; [reflexivity|]. split; [reflexivity|]. split.
  - rewrite length_app, length_map, length_zip_with, <- gaps_length.
    unfold tail_, b_start. rewrite length_drop, length_map. simpl.
    destruct mb; [congruence | simpl; lia].
  - intros i. rewrite (gap_mask_lookup (fun g => g <=? 0)).
    split; intros (c & s & Hc & Hs & Hg); exists c, s;
      (split; [exact Hc|]; split; [exact Hs|]); lia.
Qed.

Lemma attached_pairs_witness :
  Data.mburst Samples.three_bursts !! 0%nat
    = Some [mkBurst 0 8 8; mkBurst 8 16 24; mkBurst 24 8 32] /\
  exists g : list bool,
    attached Samples.three_bursts 0 = Ok (g ++ [false]) /\
    attached2 Samples.three_bursts 0 = Ok ([false] ++ g).
Proof.
  split; [reflexivity|].
  destruct (attached_pairs Samples.three_bursts 0
              [mkBurst 0 8 8; mkBurst 8 16 24; mkBurst 24 8 32])
    as (g & H1 & H2 & _); [reflexivity | discriminate |].
  exists g. auto.
Defined.

Lemma broadcast2_imp {B C} (f g : B -> C -> bool) xs ys m :
  (forall x y, f x y = true -> g x y = true) ->
  Np.broadcast2 f xs ys = Ok m ->
  exists m', Np.broadcast2 g xs ys = Ok m' /\
             Forall2 (fun a b => a = true -> b = true) m m'.
Proof.
  intros Hfg. unfold Np.broadcast2.
  assert (Hzip : forall (l : list B) (k : list C),
    Forall2 (fun a b => a = true -> b = true) (zip_with f l k) (zip_with g l k)).
  { induction l as [|x l IH]; intros [|y k]; simpl; constructor; auto. }
  assert (Hmap : forall (B' : Type) (f' g' : B' -> bool) (l : list B'),
    (forall x, f' x = true -> g' x = true) ->
    Forall2 (fun a b => a = true -> b = true) (map f' l) (map g' l)).
  { intros B' f' g' l Hi. induction l; simpl; constructor; auto. }
  destruct (Nat.eqb _ _).
  - intros [= <-]. eauto.
  - destruct xs as [|x [|x' xs]], ys as [|y [|y' ys]];
      try discriminate; intros [= <-]; eexists; (split; [reflexivity|]);
      simpl; repeat (constructor; [solve [auto]|]);
      first [constructor | apply Hmap; intros; auto].
Qed.

(** X11. Whenever [size_noise] returns a mask, [size_noise_or] returns a
    mask of the same length that selects at least the same bursts. *)
Theorem size_noise_within_or {A : Type} `{Float A}
    (d : Data.t A) (ich : nat) (th : A) (m : list bool) :
  size_noise d ich th = Ok m ->
  exists m',
    size_noise_or d ich th = Ok m' /\ length m' = length m /\
    forall i : nat, m !! i = Some true -> m' !! i = Some true.
Proof.
  unfold size_noise, size_noise_or. intros Hm.
  apply bind_Ok in Hm as (mb & -> & Hm). simpl.
  apply bind_Ok in Hm as (rd & -> & Hm). simpl.
  apply bind_Ok in Hm as (ra & -> & Hm). simpl.
  apply bind_Ok in Hm as (x & -> & Hm). simpl.
  apply bind_Ok in Hm as (m1 & -> & Hm). simpl.
  apply bind_Ok in Hm as (y & -> & Hm). simpl.
  apply bind_Ok in Hm as (m2 & -> & Hm). simpl.
  destruct (broadcast2_imp andb orb m1 m2 m) as (m' & Hor & Hall);
    [intros [] []; simpl; congruence | exact Hm |].
  exists m'. split; [exact Hor|]. split.
  - symmetry. eapply Forall2_length; eauto.
  - intros i Hi.
    destruct (Forall2_lookup_l _ _ _ _ _ Hall Hi) as (b & Hb & Himp).
    rewrite Hb. f_equal. auto.
Qed.

Lemma size_noise_within_or_witness :
  exists m m',
    size_noise Samples.three_bursts 0 (1 # 4)%Q = Ok m /\
    size_noise_or Samples.three_bursts 0 (1 # 4)%Q = Ok m' /\
    length m' = length m.
Proof.
  eexists.
  destruct (size_noise_within_or Samples.three_bursts 0 (1 # 4)%Q
              [true; false; false]) as (m' & Hor & Hlen & _);
    [reflexivity|].
  exists m'. split; [reflexivity|]. split; assumption.
Defined.

(** X12. [for_bt_fit] returns a mask only for a [BT] given per channel:
    an array whose length is not the channel count fails the assertion,
    and the default [None], like a scalar, never yields a mask. *)
Theorem for_bt_fit_needs_array {A : Type} `{Float A}
    (d : Data.t A) (ich : nat) :
  (forall vs, length vs <> Data.nch d ->
     for_bt_fit d ich (Some (PerChannel vs)) = Raise (AssertionError BTSize)) /\
  (forall m, for_bt_fit d ich None <> Ok m) /\
  (forall v m, for_bt_fit d ich (Some (Scalar v)) <> Ok m).
Proof.
  split; [|split].
  - intros vs Hne. unfold for_bt_fit.
    destruct (Nat.eqb_spec (length vs) (Data.nch d)); [contradiction|].
    reflexivity.
  - intros m. unfold for_bt_fit.
    destruct (Nat.eqb 1 (Data.nch d)); simpl; [|discriminate].
    destruct (item (Data.na d) ich); simpl; discriminate.
  - intros v m. unfold for_bt_fit.
    destruct (Nat.eqb 1 (Data.nch d)); simpl; [|discriminate].
    destruct (item (Data.na d) ich); simpl; discriminate.
Qed.

(** X13. On data with more than one channel, thresholds given as arrays
    with one value per channel act in [nda] as the values of the channel. *)
Theorem nda_per_channel {A : Type} `{Float A}
    (d : Data.t A) (ich : nat) (vs1 vs2 : list A) (a b : A)
    (gamma : A) (gamma1 : option A) (add_naa : bool) :
  (1 < Data.nch d)%nat ->
  length vs1 = Data.nch d -> length vs2 = Data.nch d ->
  vs1 !! ich = Some a -> vs2 !! ich = Some b ->
  nda d ich (PerChannel vs1) (PerChannel vs2) gamma gamma1 add_naa
  = nda d ich (Scalar a) (Scalar b) gamma gamma1 add_naa.
Proof.
  intros Hn H1 H2 Ha Hb. unfold nda.
  destruct (nda_size d ich gamma gamma1 add_naa) as [bs|e]; [|reflexivity].
  simpl. rewrite H1, H2, Nat.eqb_refl.
  apply Nat.ltb_lt in Hn. rewrite Hn. simpl.
  now rewrite (item_lookup _ _ _ Ha), (item_lookup _ _ _ Hb).
Qed.

Lemma nda_per_channel_witness :
  (1 < Data.nch Samples.two_channels)%nat /\
  nda Samples.two_channels 1 (PerChannel [6; 20]%Q) (PerChannel [50; 100]%Q)
      1%Q None false
  = nda Samples.two_channels 1 (Scalar 20%Q) (Scalar 100%Q) 1%Q None false.
Proof.
  split; [simpl; lia|].
  apply (nda_per_channel Samples.two_channels 1 [6; 20]%Q [50; 100]%Q);
    try reflexivity. simpl. lia.
Defined.

Lemma item_None {B} (xs : list B) i : xs !! i = None -> item xs i = Raise IndexError.
Proof. unfold item. now intros ->. Qed.

Lemma item_Z_cases {B} (xs : list B) (b : Z) :
  (- Z.of_nat (length xs) <= b < Z.of_nat (length xs) /\
   exists v, item_Z xs b = Ok v) \/
  (~ (- Z.of_nat (length xs) <= b < Z.of_nat (length xs)) /\
   item_Z xs b = Raise IndexError).
Proof.
  unfold item_Z.
  destruct (Z.leb_spec 0 b), (Z.ltb_spec b (Z.of_nat (length xs))); simpl.
  - left. split; [lia|].
    destruct (lookup_lt_is_Some_2 xs (Z.to_nat b)) as [v Hv]; [lia|].
    exists v. now apply item_lookup.
  - right. split; [lia|].
    destruct (Z.leb_spec (- Z.of_nat (length xs)) b), (Z.ltb_spec b 0);
      simpl; try reflexivity; lia.
  - destruct (Z.leb_spec (- Z.of_nat (length xs)) b), (Z.ltb_spec b 0);
      simpl; try lia.
    + left. split; [lia|].
      destruct (lookup_lt_is_Some_2 xs (Z.to_nat (Z.of_nat (length xs) + b)))
        as [v Hv]; [lia|].
      exists v. now apply item_lookup.
    + right. split; [lia | reflexivity].
  - lia.
Qed.

Lemma take_items_out {B} (xs : list B) (idx : list Z) :
  Exists (fun b => ~ (- Z.of_nat (length xs) <= b < Z.of_nat (length xs))) idx ->
  take_items xs idx = Raise IndexError.
Proof.
  induction idx as [|b idx IH]; intros Hex; [now apply Exists_nil in Hex|].
  simpl. destruct (item_Z_cases xs b) as [[Hin (v & ->)]|[Hout ->]];
    [|reflexivity].
  simpl. apply Exists_cons in Hex as [Hb|Hex]; [contradiction|].
  now rewrite (IH Hex).
Qed.

(** X14. A period bin outside the array of background rates makes the
    four deterministic background selectors raise [IndexError]: no burst
    of the channel gets a mask entry then. *)
Theorem bg_selectors_bin_out_of_range {A : Type} `{Float A}
    (d : Data.t A) (ich : nat) (F : A) (bp : list Z) (r0 r1 r2 r3 : list A) :
  Data.bp d !! ich = Some bp ->
  Data.bg d !! ich = Some r0 -> Data.bg_dd d !! ich = Some r1 ->
  Data.bg_ad d !! ich = Some r2 -> Data.bg_aa d !! ich = Some r3 ->
  length r1 = length r0 -> length r2 = length r0 -> length r3 = length r0 ->
  Exists (fun b => ~ (- Z.of_nat (length r0) <= b < Z.of_nat (length r0))) bp ->
  nd_bg d ich F = Raise IndexError /\ na_bg d ich F = Raise IndexError /\
  naa_bg d ich F = Raise IndexError /\ nt_bg d ich F = Raise IndexError.
Proof.
  intros Hbp H0 H1 H2 H3 L1 L2 L3 Hex.
  unfold nd_bg, na_bg, naa_bg, nt_bg, bg_burst.
  rewrite (item_lookup _ _ _ Hbp), (item_lookup _ _ _ H0),
          (item_lookup _ _ _ H1), (item_lookup _ _ _ H2),
          (item_lookup _ _ _ H3). simpl.
  rewrite (take_items_out r0 bp Hex).
  rewrite (take_items_out r1 bp) by now rewrite L1.
  rewrite (take_items_out r2 bp) by now rewrite L2.
  rewrite (take_items_out r3 bp) by now rewrite L3.
  repeat split.
Qed.

Lemma bg_selectors_bin_out_of_range_witness :
  Data.bp Samples.bad_bin !! 0%nat = Some [0; 2; 1] /\
  Exists (fun b => ~ (- 2 <= b < 2)) [0; 2; 1] /\
  nd_bg Samples.bad_bin 0 5%Q = Raise IndexError.
Proof.
  assert (Hex : Exists (fun b => ~ (- 2 <= b < 2)) [0; 2; 1])
    by (right; left; lia).
  split; [reflexivity|]. split; [exact Hex|].
  apply (bg_selectors_bin_out_of_range Samples.bad_bin 0 5%Q [0; 2; 1]
           [1; 2]%Q [1; 2]%Q [1; 2]%Q [1; 2]%Q); try reflexivity.
  exact Hex.
Defined.

(** X15. On a channel with zero bursts the predicates on the gaps between
    bursts return a mask with one entry, [False], although the channel has
    no burst. *)
Theorem gap_predicates_empty_channel {A : Type} `{Float A}
    (d : Data.t A) (ich : nat) :
  EmptyChannel d ich ->
  (forall th, feqb (Data.clk_p d) (of_Z 0) = false ->
     single d ich th = Ok [false]) /\
  attached d ich = Ok [false] /\
  attached2 d ich = Ok [false] /\
  (forall ms clk_p, feqb clk_p (of_Z 0) = false ->
     nearby d ich ms clk_p = Ok [false] /\ nearby2 d ich ms clk_p = Ok [false]).
Proof. intros Hempty. exact (empty_gaps d ich Hempty). Qed.

Lemma gap_predicates_empty_channel_witness :
  EmptyChannel Samples.no_burst 0 /\
  attached Samples.no_burst 0 = Ok [false] /\
  single Samples.no_burst 0 1%Q = Ok [false].
Proof.
  destruct (gap_predicates_empty_channel Samples.no_burst 0 no_burst_empty)
    as (Hs & Ha & _).
  split; [exact no_burst_empty|]. split; [exact Ha|].
  apply Hs. reflexivity.
Defined.

(** Rewrites the reads of the attributes of a channel that does not
    exist. *)
Ltac read_missing Hno :=
  repeat first
    [ rewrite (item_None _ _ (no_E _ _ Hno))
    | rewrite (item_None _ _ (no_S _ _ Hno))
    | rewrite (item_None _ _ (no_nd _ _ Hno))
    | rewrite (item_None _ _ (no_na _ _ Hno))
    | rewrite (item_None _ _ (no_naa _ _ Hno))
    | rewrite (item_None _ _ (no_nt _ _ Hno))
    | rewrite (item_None _ _ (no_bp _ _ Hno))
    | rewrite (item_None _ _ (no_mburst _ _ Hno))
    | rewrite (item_None _ _ (no_max_rate _ _ Hno))
    | rewrite (item_None _ _ (no_bg _ _ Hno))
    | rewrite (item_None _ _ (no_bg_dd _ _ Hno))
    | rewrite (item_None _ _ (no_bg_ad _ _ Hno))
    | rewrite (item_None _ _ (no_bg_aa _ _ Hno))
    | rewrite (item_None _ _ (no_rate_m _ _ Hno))
    | rewrite (item_None _ _ (no_rate_dd _ _ Hno))
    | rewrite (item_None _ _ (no_rate_ad _ _ Hno))
    | rewrite (item_None _ _ (no_rate_aa _ _ Hno)) ].

(** X16. A channel index beyond the channels of the dataset makes every
    predicate that starts by reading the channel raise [IndexError];
    none returns a mask. *)
Theorem missing_channel_raises {A : Type} `{Float A} `{Extern A}
    (d : Data.t A) (ich : nat) :
  NoChannel d ich ->
  ((forall E1 E2, E d ich E1 E2 = Raise IndexError) /\
   (forall S1 S2, S d ich S1 S2 = Raise IndexError) /\
   (forall E1 E2 S1 S2, ES d ich E1 E2 S1 S2 = Raise IndexError) /\
   (forall E1 E2 S1 S2, ESe d ich E1 E2 S1 S2 = Raise IndexError) /\
   (forall bp1 bp2, period d ich bp1 bp2 = Raise IndexError) /\
   (forall t1 t2, time d ich t1 t2 = Raise IndexError) /\
   (forall th1 th2, nd d ich th1 th2 = Raise IndexError) /\
   (forall th1 th2, na d ich th1 th2 = Raise IndexError) /\
   (forall th1 th2, naa d ich th1 th2 = Raise IndexError)) /\
  ((forall th1 th2 gamma gamma1 add_naa,
      nda d ich th1 th2 gamma gamma1 add_naa = Raise IndexError) /\
   (forall q low gamma gamma1,
      nda_percentile d ich q low gamma gamma1 = Raise IndexError) /\
   (forall N gamma gamma1, topN_nda d ich N gamma gamma1 = Raise IndexError) /\
   (forall p, max_rate d ich p = Raise IndexError) /\
   attached d ich = Raise IndexError /\
   attached2 d ich = Raise IndexError /\
   (forall ms clk_p, nearby d ich ms clk_p = Raise IndexError) /\
   (forall ms clk_p, nearby2 d ich ms clk_p = Raise IndexError)) /\
  ((forall F, nd_bg d ich F = Raise IndexError) /\
   (forall F, na_bg d ich F = Raise IndexError) /\
   (forall F, naa_bg d ich F = Raise IndexError) /\
   (forall F, nt_bg d ich F = Raise IndexError) /\
   (forall P F, nd_bg_p d ich P F = Raise IndexError) /\
   (forall P F, na_bg_p d ich P F = Raise IndexError) /\
   (forall P F, naa_bg_p d ich P F = Raise IndexError) /\
   (forall P F, nt_bg_p d ich P F = Raise IndexError) /\
   (forall th, size_noise d ich th = Raise IndexError) /\
   (forall th, size_noise_or d ich th = Raise IndexError) /\
   (forall F P_th, fret_value d ich F P_th = Raise IndexError)).
Proof.
  intros Hno.
  assert (Hbs : forall gamma gamma1, burst_size d ich gamma gamma1 = Raise IndexError).
  { intros gamma [g1|]; unfold burst_size; read_missing Hno; reflexivity. }
  split; [|split].
  - repeat split; intros;
      unfold E, S, ES, ESe, period, time, nd, na, naa; read_missing Hno;
      try reflexivity.
    destruct bp2; simpl; read_missing Hno; reflexivity.
  - repeat split; intros;
      unfold nda, nda_size, nda_percentile, topN_nda, max_rate,
             attached, attached2, nearby, nearby2, b_separation;
      rewrite ?Hbs; read_missing Hno; reflexivity.
  - repeat split; intros;
      unfold nd_bg, na_bg, naa_bg, nt_bg, bg_burst,
             nd_bg_p, na_bg_p, naa_bg_p, nt_bg_p,
             size_noise, size_noise_or, fret_value;
      read_missing Hno; reflexivity.
Qed.

Lemma three_bursts_no_channel : NoChannel Samples.three_bursts 1.
Proof. split; reflexivity. Qed.

Lemma missing_channel_raises_witness :
  NoChannel Samples.three_bursts 1 /\
  nd Samples.three_bursts 1 20%Q 1000%Q = Raise IndexError /\
  period Samples.three_bursts 1 0 None = Raise IndexError.
Proof.
  pose proof (@missing_channel_raises Q Q_Float Samples.no_stats
                Samples.three_bursts 1%nat three_bursts_no_channel)
    as (Hr & _ & _).
  split; [exact three_bursts_no_channel|]. split; apply Hr.
Defined.

Lemma fold_min_le (xs : list Z) (x : Z) :
  fold_left Z.min xs x <= x /\ forall b, b ∈ xs -> fold_left Z.min xs x <= b.
Proof.
  revert x. induction xs as [|y xs IH]; intros x; simpl.
  - split; [lia | intros b Hb; now apply elem_of_nil in Hb].
  - destruct (IH (Z.min x y)) as [Hx Hall]. split; [lia|].
    intros b Hb. apply elem_of_cons in Hb as [->|Hb]; [lia | auto].
Qed.

Lemma where_eq_elem (bsizes : list Z) (size : Z) (i : nat) :
  i ∈ where_eq bsizes size <-> bsizes !! i = Some size.
Proof.
  unfold where_eq. change (map fst ?l) with (fst <$> l).
  rewrite list_elem_of_fmap. split.
  - intros ([j b] & -> & Hin). apply list_elem_of_filter in Hin as [Hb Hin].
    simpl in Hb. subst b. apply list_elem_of_lookup in Hin as [k Hk].
    apply lookup_zip_with_Some in Hk as (x & y & [= -> ->] & Hx & Hy).
    apply lookup_seq in Hx as [-> _]. exact Hy.
  - intros Hi. exists (i, size). split; [reflexivity|].
    apply list_elem_of_filter. split; [reflexivity|].
    apply list_elem_of_lookup. exists i.
    apply lookup_zip_with_Some. exists i, size. split; [reflexivity|].
    split; [|exact Hi]. apply lookup_seq. split; [reflexivity|].
    now apply lookup_lt_Some in Hi.
Qed.

Lemma take_at_in_range {B} (y : list B) (idx : list nat) :
  (forall i, i ∈ idx -> (i < length y)%nat) ->
  exists vals, take_at y idx = Ok vals /\
               Forall2 (fun i v => y !! i = Some v) idx vals.
Proof.
  induction idx as [|i idx IH]; intros Hin; simpl.
  - exists []. split; [reflexivity | constructor].
  - destruct (lookup_lt_is_Some_2 y i) as [v Hv]; [apply Hin; left|].
    destruct IH as (vals & Hvals & Hall); [intros j Hj; apply Hin; now right|].
    rewrite (item_lookup _ _ _ Hv), Hvals. simpl.
    exists (v :: vals). split; [reflexivity | now constructor].
Qed.

Lemma assign_length mask idx values :
  length (assign mask idx values) = length mask.
Proof.
  revert mask values. induction idx as [|i idx IH]; intros mask [|v values];
    simpl; try reflexivity.
  now rewrite IH, length_insert.
Qed.

Lemma assign_lookup_out mask idx values (j : nat) :
  j ∉ idx -> assign mask idx values !! j = mask !! j.
Proof.
  revert mask values. induction idx as [|i idx IH]; intros mask [|v values] Hj;
    simpl; try reflexivity.
  apply not_elem_of_cons in Hj as [Hne Hj].
  rewrite IH by assumption. now apply list_lookup_insert_ne.
Qed.

Lemma assign_lookup_in (phi : nat -> bool) mask idx values (j : nat) :
  Forall2 (fun i v => v = phi i) idx values ->
  j ∈ idx -> (j < length mask)%nat ->
  assign mask idx values !! j = Some (phi j).
Proof.
  intros Hall. revert mask.
  induction Hall as [|i v idx values Hv Hall IH]; intros mask Hj Hlt.
  - now apply elem_of_nil in Hj.
  - simpl. destruct (decide (j ∈ idx)) as [Hin|Hout].
    + apply IH; [exact Hin | now rewrite length_insert].
    + apply elem_of_cons in Hj as [->|Hj]; [|contradiction].
      rewrite assign_lookup_out by assumption.
      rewrite Hv. now apply list_lookup_insert_eq.
Qed.

Section FretValue.
Context {A : Type} `{Float A} `{Extern A}.
Variable d : Data.t A.
Variable ich : nat.
Variables F P_th : A.
Variable y : list A.
Variable bsizes : list Z.
Hypothesis Hy : Data.na d !! ich = Some y.
Hypothesis Hlen : length y = length bsizes.

Lemma fret_value_step_spec (mask : list bool) (size : Z) :
  length mask = length bsizes ->
  exists mask',
    fret_value_step d ich F P_th bsizes mask size = Ok mask' /\
    length mask' = length bsizes /\
    forall (j : nat) (b : Z) (a : A),
      bsizes !! j = Some b -> y !! j = Some a ->
      mask' !! j = if decide (b = size)
                   then Some (flt (binom_ppf size F P_th) a)
                   else mask !! j.
Proof.
  intros Hm. unfold fret_value_step. rewrite (item_lookup _ _ _ Hy). simpl.
  destruct (take_at_in_range y (where_eq bsizes size)) as (vals & -> & Hall).
  { intros i Hi. apply where_eq_elem, lookup_lt_Some in Hi. lia. }
  simpl. eexists. split; [reflexivity|]. split.
  - now rewrite assign_length.
  - intros j b a Hb Ha. destruct (decide (b = size)) as [->|Hne].
    + set (phi := fun i : nat =>
                    match y !! i with
                    | Some v => flt (binom_ppf size F P_th) v
                    | None => false
                    end).
      rewrite (assign_lookup_in phi).
      * unfold phi. now rewrite Ha.
      * clear -Hall. induction Hall as [|i v idx vals Hv _ IH]; simpl;
          constructor; [unfold phi; now rewrite Hv | exact IH].
      * now apply where_eq_elem.
      * apply lookup_lt_Some in Hb. lia.
    + apply assign_lookup_out. rewrite where_eq_elem. congruence.
Qed.

Lemma fret_value_loop (sizes : list Z) (mask : list bool) :
  length mask = length bsizes ->
  exists mask',
    for_each (fret_value_step d ich F P_th bsizes) sizes mask = Ok mask' /\
    length mask' = length bsizes /\
    forall (j : nat) (b : Z) (a : A),
      bsizes !! j = Some b -> y !! j = Some a ->
      mask' !! j = if decide (b ∈ sizes)
                   then Some (flt (binom_ppf b F P_th) a)
                   else mask !! j.
Proof.
  revert mask. induction sizes as [|s sizes IH]; intros mask Hm.
  - exists mask. split; [reflexivity|]. split; [exact Hm|].
    intros j b a _ _. destruct (decide (b ∈ [])) as [Hin|_]; [|reflexivity].
    now apply elem_of_nil in Hin.
  - destruct (fret_value_step_spec mask s Hm) as (m1 & Hstep & Hl1 & Hs1).
    destruct (IH m1 Hl1) as (m2 & Hloop & Hl2 & Hs2).
    exists m2. simpl. rewrite Hstep. simpl. split; [exact Hloop|].
    split; [exact Hl2|]. intros j b a Hb Ha.
    rewrite (Hs2 j b a Hb Ha), (Hs1 j b a Hb Ha).
    destruct (decide (b ∈ sizes)) as [Hin|Hout].
    + rewrite decide_True by now right. reflexivity.
    + destruct (decide (b = s)) as [->|Hne].
      * rewrite decide_True by now left. reflexivity.
      * rewrite decide_False; [reflexivity|].
        intros Hin. apply elem_of_cons in Hin as [?|?]; contradiction.
Qed.

End FretValue.

(** X17. [fret_value] groups the bursts by their rounded size, but its
    mask is the test burst by burst: on a channel with n > 0 bursts the
    mask has n entries and entry i tells whether [na[i]] is greater than
    the [P_th] quantile of the binomial law of [round(nd[i] + na[i])]
    trials (as a 16-bit unsigned size) and probability [F]. *)
Theorem fret_value_per_burst {A : Type} `{Float A} `{Extern A}
    (d : Data.t A) (ich : nat) (F P_th : A) (x y : list A) :
  Data.nd d !! ich = Some x -> Data.na d !! ich = Some y ->
  length x = length y -> x <> [] ->
  exists mask,
    fret_value d ich F P_th = Ok mask /\
    length mask = length x /\
    forall (i : nat) (a b : A),
      x !! i = Some a -> y !! i = Some b ->
      mask !! i = Some (flt (binom_ppf (to_uint16 (fadd a b)) F P_th) b).
Proof.
  intros Hx Hy Hlen Hne. unfold fret_value.
  rewrite (item_lookup _ _ _ Hx), (item_lookup _ _ _ Hy). simpl.
  rewrite broadcast2_same by exact Hlen. simpl.
  set (bsizes := map to_uint16 (zip_with fadd x y)).
  assert (Hlb : length y = length bsizes)
    by (unfold bsizes; rewrite length_map, length_zip_with; lia).
  assert (Hbs : forall i a b, x !! i = Some a -> y !! i = Some b ->
                  bsizes !! i = Some (to_uint16 (fadd a b))).
  { intros i a b Ha Hb. unfold bsizes.
    now rewrite list_lookup_fmap, lookup_zip_with, Ha, Hb. }
  destruct bsizes as [|b0 bs] eqn:Ebs.
  { destruct x; [congruence|]. destruct y; discriminate. }
  rewrite <- Ebs in *.
  assert (Hlo : reduce Z.min bsizes = Ok (fold_left Z.min bs b0))
    by now rewrite Ebs.
  assert (Hhi : reduce Z.max bsizes = Ok (fold_left Z.max bs b0))
    by now rewrite Ebs.
  rewrite Hlo, Hhi. simpl.
  set (lo := fold_left Z.min bs b0). set (hi := fold_left Z.max bs b0).
  assert (Hrange : forall b, b ∈ bsizes -> lo <= b <= hi).
  { intros b Hb. rewrite Ebs in Hb.
    destruct (fold_min_le bs b0) as [H1 H2].
    destruct (fold_max_ge bs b0) as [H3 H4].
    apply elem_of_cons in Hb as [->|Hb]; unfold lo, hi;
      [lia | split; auto]. }
  destruct (fret_value_loop d ich F P_th y bsizes Hy Hlb
              (seqZ lo (hi + 1 - lo)) (replicate (length bsizes) false))
    as (mask & Hloop & Hlm & Hspec); [apply length_replicate|].
  exists mask. split; [exact Hloop|]. split; [lia|].
  intros i a b Ha Hb.
  rewrite (Hspec i _ b (Hbs i a b Ha Hb) Hb).
  rewrite decide_True; [reflexivity|].
  apply elem_of_seqZ.
  assert (Hin : to_uint16 (fadd a b) ∈ bsizes)
    by (eapply list_elem_of_lookup_2; eauto).
  apply Hrange in Hin. lia.
Qed.

Lemma fret_value_per_burst_witness :
  Data.nd Samples.three_bursts !! 0%nat = Some [5; 3; 10]%Q /\
  Data.na Samples.three_bursts !! 0%nat = Some [2; 7; 1]%Q /\
  exists mask,
    @fret_value Q Q_Float Samples.no_stats Samples.three_bursts 0
      (1 # 2)%Q (1 # 100)%Q = Ok mask /\
    length mask = 3%nat.
Proof.
  split; [reflexivity|]. split; [reflexivity|].
  destruct (@fret_value_per_burst Q Q_Float Samples.no_stats
              Samples.three_bursts 0%nat (1 # 2)%Q (1 # 100)%Q
              [5; 3; 10]%Q [2; 7; 1]%Q eq_refl eq_refl eq_refl)
    as (mask & Hrun & Hl & _); [discriminate|].
  exists mask. auto.
Defined.

End SelectExtra.
